(** * jointcal: photometry mappings, model indexing, fit step and associations

    A shallow embedding of the parts of jointcal that the specification
    talks about.  Code whose bodies are in the headers
    ([PhotometryMapping.h], [Associations.h]) is transcribed from them;
    operations that the headers only declare are modelled from the
    specification and say so in their documentation. *)

From Stdlib Require Import ZArith List Lia Floats QArith Qcanon.
From stdpp Require Import base option numbers list strings gmap.

Local Open Scope Z_scope.

(** ** Machine data *)

(** A C++ [double] is an IEEE binary64 value. *)
Definition double : Type := float.

(** [Eigen::VectorXd] and [std::vector<unsigned>]. *)
Definition VectorXd : Type := list double.

(** [unsigned] is 32 bits wide; conversions and arithmetic wrap. *)
Definition to_unsigned (z : Z) : Z := z mod 2 ^ 32.

(** Addresses of heap objects held through [std::shared_ptr]. *)
Definition loc : Type := nat.

(** The part of [MeasuredStar] the mappings read: pixel position
    ([x], [y]) and focal-plane position ([getXFocal], [getYFocal]). *)
Record MeasuredStar := {
  ms_x : double;
  ms_y : double;
  ms_xFocal : double;
  ms_yFocal : double
}.

(** ** The [PhotometryTransfo] interface

    [PhotometryTransfo.h] is not part of the sources; the mappings use
    the virtual methods below, which are taken as an interface over the
    state [T] of a transfo object. *)
Class PhotometryTransfo (T : Type) := {
  transfo_inhabited :: Inhabited T;
  transfo_getNpar : T → Z;
  transfo_getNpar_range : ∀ t, 0 ≤ transfo_getNpar t < 2 ^ 32;
  transfo_transform : T → double → double → double → double;
  transfo_transformError : T → double → double → double → double → double;
  transfo_clone : T → T;
  transfo_computeParameterDerivatives :
    T → double → double → double → VectorXd → VectorXd;
  transfo_offsetParams : VectorXd → T → T;
  transfo_getParameters : T → VectorXd
}.

(** ** [PhotometryMapping]: a mapping containing a single transfo *)
Module PhotometryMapping.

(** Fields of [PhotometryMappingBase] and [PhotometryMapping]; the two
    shared pointers are addresses into the store of transfo objects. *)
Record t := mk {
  index : Z;
  fixed : bool;
  _transfo : loc;
  _transfoErrors : loc
}.

(** [PhotometryMappingBase() : index(-1), fixed(false)], then
    [_transfo(std::move(transfo)), _transfoErrors(_transfo)]. *)
Definition new (transfo : loc) : t :=
  {| index := to_unsigned (-1); fixed := false;
     _transfo := transfo; _transfoErrors := transfo |}.

Definition setFixed (_fixed : bool) (m : t) : t :=
  {| index := index m; fixed := _fixed;
     _transfo := _transfo m; _transfoErrors := _transfoErrors m |}.

Definition isFixed (m : t) : bool := fixed m.

Definition getIndex (m : t) : Z := index m.

Definition setIndex (i : Z) (m : t) : t :=
  {| index := to_unsigned i; fixed := fixed m;
     _transfo := _transfo m; _transfoErrors := _transfoErrors m |}.

Definition getTransfo (m : t) : loc := _transfo m.

Definition getTransfoErrors (m : t) : loc := _transfoErrors m.

Section Ops.
Context {T : Type} `{PhotometryTransfo T}.

Definition getNpar (σ : gmap loc T) (m : t) : Z :=
  if fixed m then 0 else transfo_getNpar (σ !!! _transfo m).

Definition transform (σ : gmap loc T) (m : t)
    (measuredStar : MeasuredStar) (value : double) : double :=
  transfo_transform (σ !!! _transfo m)
    (ms_x measuredStar) (ms_y measuredStar) value.

Definition transformError (σ : gmap loc T) (m : t)
    (measuredStar : MeasuredStar) (value valueErr : double) : double :=
  transfo_transformError (σ !!! _transfoErrors m)
    (ms_x measuredStar) (ms_y measuredStar) value valueErr.

(** [_transfoErrors = std::shared_ptr<PhotometryTransfo>(_transfo->clone())]:
    the clone is a new object at an address not in use. *)
Definition freezeErrorTransform (σ : gmap loc T) (m : t)
    : gmap loc T * t :=
  let q := fresh (dom σ) in
  (<[q := transfo_clone (σ !!! _transfo m)]> σ,
   {| index := index m; fixed := fixed m;
      _transfo := _transfo m; _transfoErrors := q |}).

Definition computeParameterDerivatives (σ : gmap loc T) (m : t)
    (measuredStar : MeasuredStar) (value : double)
    (derivatives : VectorXd) : VectorXd :=
  if fixed m then derivatives
  else transfo_computeParameterDerivatives (σ !!! _transfo m)
         (ms_x measuredStar) (ms_y measuredStar) value derivatives.

(** [_transfo->offsetParams(delta)] updates the object in place. *)
Definition offsetParams (delta : VectorXd) (m : t) (σ : gmap loc T)
    : gmap loc T :=
  alter (transfo_offsetParams delta) (_transfo m) σ.

Definition getParameters (σ : gmap loc T) (m : t) : VectorXd :=
  transfo_getParameters (σ !!! _transfo m).

(** [if (indices.size() < getNpar()) indices.resize(getNpar());
     for (k = 0; k < getNpar(); ++k) indices[k] = index + k;] *)
Definition getMappingIndices (σ : gmap loc T) (m : t)
    (indices : list Z) : list Z :=
  let n := Z.to_nat (getNpar σ m) in
  let indices :=
    if (length indices <? n)%nat then resize n 0 indices else indices in
  foldl (λ v k, <[k := to_unsigned (index m + Z.of_nat k)]> v)
        indices (seq 0 n).

End Ops.
End PhotometryMapping.

(** ** [ChipVisitPhotometryMapping]: one transfo for the ccd, one for the visit *)
Module ChipVisitPhotometryMapping.

Record t := mk {
  index : Z;
  fixed : bool;
  _nParChip : Z;
  _nParVisit : Z;
  _chipMapping : PhotometryMapping.t;
  _visitMapping : PhotometryMapping.t
}.

Definition new (chipMapping visitMapping : PhotometryMapping.t) : t :=
  {| index := to_unsigned (-1); fixed := false;
     _nParChip := 0; _nParVisit := 0;
     _chipMapping := chipMapping; _visitMapping := visitMapping |}.

Definition setFixed (_fixed : bool) (m : t) : t :=
  {| index := index m; fixed := _fixed;
     _nParChip := _nParChip m; _nParVisit := _nParVisit m;
     _chipMapping := _chipMapping m; _visitMapping := _visitMapping m |}.

Definition isFixed (m : t) : bool := fixed m.

Definition getChipMapping (m : t) : PhotometryMapping.t := _chipMapping m.
Definition getVisitMapping (m : t) : PhotometryMapping.t := _visitMapping m.
Definition getNParChip (m : t) : Z := _nParChip m.
Definition getNParVisit (m : t) : Z := _nParVisit m.

(** [return _nParChip + _nParVisit;] on [unsigned]. *)
Definition getNpar (m : t) : Z := to_unsigned (_nParChip m + _nParVisit m).

Section Ops.
Context {T : Type} `{PhotometryTransfo T}.

Definition transform (σ : gmap loc T) (m : t)
    (measuredStar : MeasuredStar) (value : double) : double :=
  let temp :=
    transfo_transform
      (σ !!! PhotometryMapping.getTransfo (_chipMapping m))
      (ms_x measuredStar) (ms_y measuredStar) value in
  transfo_transform
    (σ !!! PhotometryMapping.getTransfo (_visitMapping m))
    (ms_xFocal measuredStar) (ms_yFocal measuredStar) temp.

(** Modelled from the spec: the body of [setWhatToFit] is not in the
    sources.  The header documents the two counters it sets as
    "either transfo.getNpar() or 0, depending on whether we are
    fitting that component or not". *)
Definition setWhatToFit (σ : gmap loc T)
    (fittingChips fittingVisits : bool) (m : t) : t :=
  {| index := index m; fixed := fixed m;
     _nParChip :=
       if fittingChips
       then transfo_getNpar
              (σ !!! PhotometryMapping.getTransfo (_chipMapping m))
       else 0;
     _nParVisit :=
       if fittingVisits
       then transfo_getNpar
              (σ !!! PhotometryMapping.getTransfo (_visitMapping m))
       else 0;
     _chipMapping := _chipMapping m; _visitMapping := _visitMapping m |}.

End Ops.
End ChipVisitPhotometryMapping.

(** ** Fit-component names *)

(** [whatToFit.find(name) != std::string::npos]. *)
Fixpoint contains (whatToFit name : string) : bool :=
  String.prefix name whatToFit ||
  match whatToFit with
  | EmptyString => false
  | String _ rest => contains rest name
  end.

(** [v.segment(start, n)]. *)
Definition segment {A : Type} (v : list A) (start n : Z) : list A :=
  take (Z.to_nat n) (drop (Z.to_nat start) v).

(** ** The model: one mapping per CcdImage *)
Module Model.

(** A CcdImage's mapping together with the name of the fit component
    it belongs to. *)
Record entry := mk_entry {
  component : string;
  mapping : PhotometryMapping.t
}.

Section Ops.
Context {T : Type} `{PhotometryTransfo T}.

(** Modelled from the spec: the body of [assignIndices] is not in the
    sources.  Section 4.3: for each CcdImage's mapping whose
    component is requested, assign a contiguous block of global
    indices starting at [firstIndex], advancing by the mapping's
    current parameter count; mappings whose component is not
    requested are marked fixed and get no indices; the next free
    index is returned.  [firstIndex] and the result are
    [Eigen::Index] values. *)
Fixpoint assignIndices (σ : gmap loc T) (whatToFit : string)
    (firstIndex : Z) (entries : list entry) : list entry * Z :=
  match entries with
  | [] => ([], firstIndex)
  | e :: rest =>
      if contains whatToFit (component e) then
        let m := PhotometryMapping.setIndex firstIndex
                   (PhotometryMapping.setFixed false (mapping e)) in
        let '(rest', next) :=
          assignIndices σ whatToFit
            (firstIndex + PhotometryMapping.getNpar σ m) rest in
        (mk_entry (component e) m :: rest', next)
      else
        let m := PhotometryMapping.setFixed true (mapping e) in
        let '(rest', next) := assignIndices σ whatToFit firstIndex rest in
        (mk_entry (component e) m :: rest', next)
  end.

(** Modelled from the spec: the body of [offsetParams] is not in the
    sources.  Section 4.3: each variable mapping reads its assigned
    index slice out of the global [delta] and applies it to its own
    transfo. *)
Definition offsetParams (delta : VectorXd) (entries : list entry)
    (σ : gmap loc T) : gmap loc T :=
  foldl (λ σ e,
           let m := mapping e in
           if PhotometryMapping.isFixed m then σ
           else PhotometryMapping.offsetParams
                  (segment delta (PhotometryMapping.getIndex m)
                     (PhotometryMapping.getNpar σ m)) m σ)
        σ entries.

(** The number of parameters of all mappings together. *)
Definition totalNpar (σ : gmap loc T) (entries : list entry) : Z :=
  foldr (λ e n, PhotometryMapping.getNpar σ (mapping e) + n) 0 entries.

(** The indices a model's mappings occupy, mapping after mapping. *)
Definition allIndices (σ : gmap loc T) (entries : list entry) : list Z :=
  concat (map (λ e, PhotometryMapping.getMappingIndices σ (mapping e) [])
              entries).

End Ops.
End Model.

(** ** Exceptions and stateful calls *)

(** Jointcal reports usage errors by throwing; a call either returns or
    throws, and in both cases leaves a state behind. *)
Inductive exception := UsageError.

Inductive outcome (A : Type) :=
| Returned (a : A)
| Thrown (e : exception).
Arguments Returned {A} a.
Arguments Thrown {A} e.

Definition M (S A : Type) : Type := S → S * outcome A.

Definition ret {S A} (a : A) : M S A := λ s, (s, Returned a).
Definition throw {S A} (e : exception) : M S A := λ s, (s, Thrown e).
Definition bind {S A B} (c : M S A) (k : A → M S B) : M S B :=
  λ s, match c s with
       | (s', Returned a) => k a s'
       | (s', Thrown e) => (s', Thrown e)
       end.
Definition get {S} : M S S := λ s, (s, Returned s).
Definition put {S} (s : S) : M S unit := λ _, (s, Returned tt).

Notation "'do' x <~ c ;; k" := (bind c (λ x, k))
  (at level 10, x name, c at level 99, k at level 200, only parsing).

(** ** [PhotomFit]: the photometric least-squares problem *)
Module PhotomFit.

Definition Triplet : Type := Z * Z * double.
Definition TripletList : Type := list Triplet.

(** The flux of a fitted star and its position in the parameter vector. *)
Record FittedFlux := mk_flux {
  flux : double;
  indexInMatrix : Z
}.

(** The private members declared in [PhotomFit.h]; the model's
    mappings and the store of their transfos stand for
    [_photomModel], the fluxes for what is reached through
    [_associations]. *)
Record t (T : Type) := mk {
  _whatToFit : string;
  _fittingModel : bool;
  _fittingFluxes : bool;
  _nParModel : Z;
  _nParFluxes : Z;
  _nParTot : Z;
  _photomModel : list Model.entry;
  transfos : gmap loc T;
  fittedFluxes : list FittedFlux;
  _lastNTrip : Z
}.
Arguments mk {T}.
Arguments _whatToFit {T}.
Arguments _fittingModel {T}.
Arguments _fittingFluxes {T}.
Arguments _nParModel {T}.
Arguments _nParFluxes {T}.
Arguments _nParTot {T}.
Arguments _photomModel {T}.
Arguments transfos {T}.
Arguments fittedFluxes {T}.
Arguments _lastNTrip {T}.

Section Ops.
Context {T : Type} `{PhotometryTransfo T}.

(** The accumulation of triplets and right-hand side, and the sparse
    factorization and solve, belong to code and to a linear-algebra
    backend outside the sources.  [solve n jacobian rhs] is [None]
    when the factorization of the [n]-row system fails, and otherwise
    gives the entries of the solution: the backend returns a vector
    with one entry per row of the system it factorized. *)
Variable LSDerivatives : t T → TripletList * VectorXd.
Variable solve : Z → TripletList → VectorXd → option (nat → double).

(** The solution of an [n]-row system as a vector. *)
Definition solution (n : Z) (entries : nat → double) : VectorXd :=
  entries <$> seq 0 (Z.to_nat n).

Definition indexFluxes (first : Z) (l : list FittedFlux)
    : list FittedFlux :=
  imap (λ k f, mk_flux (flux f) (to_unsigned (first + Z.of_nat k))) l.

(** Modelled from the spec: the body of [assignIndices] is not in the
    sources.  Its documentation: set parameter groups fixed or
    variable and assign indices to each parameter in the big matrix;
    "Model" and "Fluxes" select the groups, and provided it contains
    "Model", [whatToFit] is passed over to the model. *)
Definition assignIndices (whatToFit : string) : M (t T) unit := λ fit,
  let fittingModel := contains whatToFit "Model" in
  let fittingFluxes := contains whatToFit "Fluxes" in
  let '(entries, nParModel) :=
    if fittingModel
    then Model.assignIndices (transfos fit) whatToFit 0 (_photomModel fit)
    else (_photomModel fit, 0) in
  let nParModel := to_unsigned nParModel in
  let nParFluxes :=
    if fittingFluxes
    then to_unsigned (Z.of_nat (length (fittedFluxes fit))) else 0 in
  let fluxes :=
    if fittingFluxes then indexFluxes nParModel (fittedFluxes fit)
    else fittedFluxes fit in
  (mk whatToFit fittingModel fittingFluxes nParModel nParFluxes
      (to_unsigned (nParModel + nParFluxes))
      entries (transfos fit) fluxes (_lastNTrip fit),
   Returned tt).

(** Modelled from the spec: the body of [offsetParams] is not in the
    sources.  Its documentation: "We can only test the size";
    section 4.3: mismatched sizes are a reportable usage error,
    otherwise the offsets are dispatched to the variable
    parameters. *)
Definition offsetParams (delta : VectorXd) : M (t T) unit := λ fit,
  if negb (Z.of_nat (length delta) =? _nParTot fit)
  then throw UsageError fit
  else
    let σ :=
      if _fittingModel fit
      then Model.offsetParams delta (_photomModel fit) (transfos fit)
      else transfos fit in
    let fluxes :=
      if _fittingFluxes fit
      then map (λ f, mk_flux
                  (flux f + nth (Z.to_nat (indexInMatrix f)) delta 0)%float
                  (indexInMatrix f))
               (fittedFluxes fit)
      else fittedFluxes fit in
    (mk (_whatToFit fit) (_fittingModel fit) (_fittingFluxes fit)
        (_nParModel fit) (_nParFluxes fit) (_nParTot fit)
        (_photomModel fit) σ fluxes (_lastNTrip fit),
     Returned tt).

Definition setLastNTrip (n : Z) : M (t T) unit := λ fit,
  (mk (_whatToFit fit) (_fittingModel fit) (_fittingFluxes fit)
      (_nParModel fit) (_nParFluxes fit) (_nParTot fit)
      (_photomModel fit) (transfos fit) (fittedFluxes fit) n,
   Returned tt).

(** Modelled from the spec: the body of [minimize] is not in the
    sources.  Section 4.4 and the documentation in [PhotomFit.h]:
    assign indices, accumulate all triplets and the right-hand side,
    factorize and solve for [delta], then call [offsetParams];
    false if the factorization failed, true otherwise. *)
Definition minimize (whatToFit : string) : M (t T) bool :=
  do _ <~ assignIndices whatToFit ;;
  do fit <~ get ;;
  let '(tripletList, grad) := LSDerivatives fit in
  do _ <~ setLastNTrip (Z.of_nat (length tripletList)) ;;
  match solve (_nParTot fit) tripletList grad with
  | None => ret false
  | Some entries =>
      do _ <~ offsetParams (solution (_nParTot fit) entries) ;; ret true
  end.

End Ops.
End PhotomFit.

(** ** [Associations]: what [Associations.h] defines inline *)
Module Associations.

Record Point := mk_point { x : double; y : double }.

(** [std::numeric_limits<double>::quiet_NaN()]. *)
Definition quiet_NaN : double := nan.

Section WithCatalogs.
(** [CcdImage], [RefStar] and [FittedStar] are declared in headers
    that are not part of the sources. *)
Variables CcdImage RefStar FittedStar : Type.

Record t := mk {
  ccdImageList : list CcdImage;
  refStarList : list RefStar;
  fittedStarList : list FittedStar;
  _commonTangentPoint : Point
}.

(** [Associations()]. *)
Definition new : t :=
  {| ccdImageList := []; refStarList := []; fittedStarList := [];
     _commonTangentPoint := mk_point quiet_NaN quiet_NaN |}.

(** [Associations(CcdImageList const &imageList)]. *)
Definition new_from (imageList : list CcdImage) : t :=
  {| ccdImageList := imageList; refStarList := []; fittedStarList := [];
     _commonTangentPoint := mk_point quiet_NaN quiet_NaN |}.

Definition refStarListSize (a : t) : nat := length (refStarList a).
Definition fittedStarListSize (a : t) : nat := length (fittedStarList a).

Definition getCommonTangentPoint (a : t) : Point := _commonTangentPoint a.

(** [ccdImageList.push_back(ccdImage)]. *)
Definition addCcdImage (ccdImage : CcdImage) (a : t) : t :=
  {| ccdImageList := ccdImageList a ++ [ccdImage];
     refStarList := refStarList a;
     fittedStarList := fittedStarList a;
     _commonTangentPoint := _commonTangentPoint a |}.

Definition getCcdImageList (a : t) : list CcdImage := ccdImageList a.

Definition getNFilters (a : t) : Z := 1.

End WithCatalogs.

Arguments mk {CcdImage RefStar FittedStar}.
Arguments ccdImageList {CcdImage RefStar FittedStar}.
Arguments refStarList {CcdImage RefStar FittedStar}.
Arguments fittedStarList {CcdImage RefStar FittedStar}.
Arguments _commonTangentPoint {CcdImage RefStar FittedStar}.
Arguments new {CcdImage RefStar FittedStar}.
Arguments new_from {CcdImage RefStar FittedStar}.
Arguments refStarListSize {CcdImage RefStar FittedStar}.
Arguments fittedStarListSize {CcdImage RefStar FittedStar}.
Arguments getCommonTangentPoint {CcdImage RefStar FittedStar}.
Arguments addCcdImage {CcdImage RefStar FittedStar}.
Arguments getCcdImageList {CcdImage RefStar FittedStar}.
Arguments getNFilters {CcdImage RefStar FittedStar}.
End Associations.

(** ** The association engine

    [associateCatalogs] is only declared in [Associations.h], and the
    star classes are in headers that are not part of the sources.  This
    module models them from sections 3, 4.2 and 9 of the specification:
    FittedStars live in an arena addressed by stable handles, a
    MeasuredStar stores the handle of the FittedStar it is matched to,
    and a FittedStar counts its measurements.  Positions are the ones
    already projected into the common tangent plane; this module counts
    FittedStars, and separations are compared on exact rationals. *)
Module AssociationModel.
Local Open Scope Qc_scope.

(** Modelled from the spec: [MeasuredStar.h] is not in the sources.
    Section 3: a detection has a position, a flux, and a non-owning
    back-reference to the FittedStar it is matched to. *)
Record MeasuredStar := mk_measured {
  m_x : Qc;
  m_y : Qc;
  m_flux : Qc;
  fittedStar : option nat
}.

(** Modelled from the spec: [FittedStar.h] is not in the sources.
    Section 3: position, flux and measurement count. *)
Record FittedStar := mk_fitted {
  f_x : Qc;
  f_y : Qc;
  f_flux : Qc;
  measurementCount : Z
}.

(** The CcdImage list, each image with its detections, and the arena
    of FittedStars. *)
Record t := mk {
  ccdImageList : list (list MeasuredStar);
  fittedStarList : gmap nat FittedStar
}.

Definition setFittedStar (h : option nat) (ms : MeasuredStar)
    : MeasuredStar :=
  mk_measured (m_x ms) (m_y ms) (m_flux ms) h.

(** Squared separation in the tangent plane. *)
Definition dist2 (ms : MeasuredStar) (fs : FittedStar) : Qc :=
  (m_x ms - f_x fs) * (m_x ms - f_x fs)
  + (m_y ms - f_y fs) * (m_y ms - f_y fs).

(** The separation is below the cutoff; stated on squares, with the
    sign of the cutoff kept, so that no square root is needed.  A
    cutoff of 0 admits nothing. *)
Definition within (matchCut d2 : Qc) : bool :=
  bool_decide (0 < matchCut) && bool_decide (d2 < matchCut * matchCut).

(** One step of the nearest-neighbour search: a candidate inside the
    cutoff replaces the best so far when it is strictly closer. *)
Definition closer (matchCut : Qc) (ms : MeasuredStar)
    (best : option (nat * Qc)) (cand : nat * FittedStar)
    : option (nat * Qc) :=
  let d2 := dist2 ms (snd cand) in
  if within matchCut d2 then
    match best with
    | Some (_, b) => if bool_decide (d2 < b) then Some (fst cand, d2)
                     else best
    | None => Some (fst cand, d2)
    end
  else best.

Definition findClosest (matchCut : Qc) (fitted : gmap nat FittedStar)
    (ms : MeasuredStar) : option nat :=
  fst <$> foldl (closer matchCut ms) None (map_to_list fitted).

Definition addMeasurement (fs : FittedStar) : FittedStar :=
  mk_fitted (f_x fs) (f_y fs) (f_flux fs) (measurementCount fs + 1)%Z.

Definition fromMeasured (ms : MeasuredStar) : FittedStar :=
  mk_fitted (m_x ms) (m_y ms) (m_flux ms) 1%Z.

(** The detections of one CcdImage are matched against the FittedStars
    that existed when the image was reached ([existing]); matches are
    counted, and unmatched detections create new FittedStars when
    [enlargeFittedList] is set and are dropped otherwise. *)
Fixpoint associateImage (matchCut : Qc) (enlargeFittedList : bool)
    (existing fitted : gmap nat FittedStar) (image : list MeasuredStar)
    : list MeasuredStar * gmap nat FittedStar :=
  match image with
  | [] => ([], fitted)
  | ms :: rest =>
      match findClosest matchCut existing ms with
      | Some h =>
          let '(rest', fitted') :=
            associateImage matchCut enlargeFittedList existing
              (alter addMeasurement h fitted) rest in
          (setFittedStar (Some h) ms :: rest', fitted')
      | None =>
          if enlargeFittedList then
            let h := fresh (dom fitted) in
            let '(rest', fitted') :=
              associateImage matchCut enlargeFittedList existing
                (<[h := fromMeasured ms]> fitted) rest in
            (setFittedStar (Some h) ms :: rest', fitted')
          else
            let '(rest', fitted') :=
              associateImage matchCut enlargeFittedList existing
                fitted rest in
            (setFittedStar None ms :: rest', fitted')
      end
  end.

(** The merge runs incrementally over the CcdImage list. *)
Fixpoint associateImages (matchCut : Qc) (enlargeFittedList : bool)
    (fitted : gmap nat FittedStar) (images : list (list MeasuredStar))
    : list (list MeasuredStar) * gmap nat FittedStar :=
  match images with
  | [] => ([], fitted)
  | image :: rest =>
      let '(image', fitted') :=
        associateImage matchCut enlargeFittedList fitted fitted image in
      let '(rest', fitted'') :=
        associateImages matchCut enlargeFittedList fitted' rest in
      (image' :: rest', fitted'')
  end.

Definition clearBeforeAssoc (fs : FittedStar) : FittedStar :=
  mk_fitted (f_x fs) (f_y fs) (f_flux fs) 0%Z.

(** Modelled from the spec: the body of [associateCatalogs] is not in
    the sources.  Section 4.2: every detection of every CcdImage is
    matched to the nearest FittedStar inside [matchCutInArcsec], 0
    disabling the matching; unmatched detections create FittedStars when
    [enlargeFittedList] is true and are dropped otherwise.
    The specification names [useFittedList] without describing it: it
    is taken to keep the FittedStars already in the list, with their
    counts reset, as the starting point, the merged catalog being built
    from scratch otherwise. *)
Definition associateCatalogs (matchCutInArcsec : Qc)
    (useFittedList enlargeFittedList : bool) (a : t) : t :=
  let start :=
    if useFittedList then clearBeforeAssoc <$> fittedStarList a else ∅ in
  let '(images, fitted) :=
    associateImages matchCutInArcsec enlargeFittedList start
      (ccdImageList a) in
  mk images fitted.

(** All detections. *)
Definition detections (a : t) : list MeasuredStar :=
  concat (ccdImageList a).

(** Four CcdImages with one detection each: at the origin, 3 to its
    right, and at distance 2 above and below the second. *)
Definition star (x y : Z) : MeasuredStar :=
  mk_measured (Q2Qc (inject_Z x)) (Q2Qc (inject_Z y)) 1 None.

Definition exampleCatalogs : t :=
  mk [[star 0 0]; [star 3 0]; [star 3 2]; [star 3 (-2)]] ∅.

End AssociationModel.

(** ** The association engine on doubles, and the preparation of the
    FittedStars

    [selectFittedStars], [normalizeFittedStars] and [prepareFittedStars]
    are only declared in [Associations.h].  They compute positions and
    fluxes, which the star classes hold as [double]s, so this module has
    the stars and the engine of sections 3, 4.2 and 9 on doubles: sums
    and quotients round, overflow and give NaN as IEEE binary64
    arithmetic does. *)
Module DoubleAssociations.
Local Open Scope float_scope.

(** Modelled from the spec: [MeasuredStar.h] is not in the sources.
    Section 3: a detection has a position, a flux, and a non-owning
    back-reference to the FittedStar it is matched to. *)
Record MeasuredStar := mk_measured {
  m_x : double;
  m_y : double;
  m_flux : double;
  fittedStar : option nat
}.

(** Modelled from the spec: [FittedStar.h] is not in the sources.
    Section 3: position, flux and measurement count. *)
Record FittedStar := mk_fitted {
  f_x : double;
  f_y : double;
  f_flux : double;
  measurementCount : Z
}.

(** The CcdImage list, each image with its detections, and the arena
    of FittedStars. *)
Record t := mk {
  ccdImageList : list (list MeasuredStar);
  fittedStarList : gmap nat FittedStar
}.

Definition setFittedStar (h : option nat) (ms : MeasuredStar)
    : MeasuredStar :=
  mk_measured (m_x ms) (m_y ms) (m_flux ms) h.

(** Squared separation in the tangent plane. *)
Definition dist2 (ms : MeasuredStar) (fs : FittedStar) : double :=
  (m_x ms - f_x fs) * (m_x ms - f_x fs)
  + (m_y ms - f_y fs) * (m_y ms - f_y fs).

(** The separation is below the cutoff; a cutoff of 0 admits nothing. *)
Definition within (matchCut d2 : double) : bool :=
  (0 <? matchCut) && (d2 <? matchCut * matchCut).

(** One step of the nearest-neighbour search: a candidate inside the
    cutoff replaces the best so far when it is strictly closer. *)
Definition closer (matchCut : double) (ms : MeasuredStar)
    (best : option (nat * double)) (cand : nat * FittedStar)
    : option (nat * double) :=
  let d2 := dist2 ms (snd cand) in
  if within matchCut d2 then
    match best with
    | Some (_, b) => if d2 <? b then Some (fst cand, d2) else best
    | None => Some (fst cand, d2)
    end
  else best.

Definition findClosest (matchCut : double) (fitted : gmap nat FittedStar)
    (ms : MeasuredStar) : option nat :=
  fst <$> foldl (closer matchCut ms) None (map_to_list fitted).

Definition addMeasurement (fs : FittedStar) : FittedStar :=
  mk_fitted (f_x fs) (f_y fs) (f_flux fs) (measurementCount fs + 1)%Z.

Definition fromMeasured (ms : MeasuredStar) : FittedStar :=
  mk_fitted (m_x ms) (m_y ms) (m_flux ms) 1%Z.

(** The detections of one CcdImage are matched against the FittedStars
    that existed when the image was reached ([existing]); matches are
    counted, and unmatched detections create new FittedStars when
    [enlargeFittedList] is set and are dropped otherwise. *)
Fixpoint associateImage (matchCut : double) (enlargeFittedList : bool)
    (existing fitted : gmap nat FittedStar) (image : list MeasuredStar)
    : list MeasuredStar * gmap nat FittedStar :=
  match image with
  | [] => ([], fitted)
  | ms :: rest =>
      match findClosest matchCut existing ms with
      | Some h =>
          let '(rest', fitted') :=
            associateImage matchCut enlargeFittedList existing
              (alter addMeasurement h fitted) rest in
          (setFittedStar (Some h) ms :: rest', fitted')
      | None =>
          if enlargeFittedList then
            let h := fresh (dom fitted) in
            let '(rest', fitted') :=
              associateImage matchCut enlargeFittedList existing
                (<[h := fromMeasured ms]> fitted) rest in
            (setFittedStar (Some h) ms :: rest', fitted')
          else
            let '(rest', fitted') :=
              associateImage matchCut enlargeFittedList existing
                fitted rest in
            (setFittedStar None ms :: rest', fitted')
      end
  end.

(** The merge runs incrementally over the CcdImage list. *)
Fixpoint associateImages (matchCut : double) (enlargeFittedList : bool)
    (fitted : gmap nat FittedStar) (images : list (list MeasuredStar))
    : list (list MeasuredStar) * gmap nat FittedStar :=
  match images with
  | [] => ([], fitted)
  | image :: rest =>
      let '(image', fitted') :=
        associateImage matchCut enlargeFittedList fitted fitted image in
      let '(rest', fitted'') :=
        associateImages matchCut enlargeFittedList fitted' rest in
      (image' :: rest', fitted'')
  end.

Definition clearBeforeAssoc (fs : FittedStar) : FittedStar :=
  mk_fitted (f_x fs) (f_y fs) (f_flux fs) 0%Z.

(** Modelled from the spec: the body of [associateCatalogs] is not in
    the sources.  Section 4.2: every detection of every CcdImage is
    matched to the nearest FittedStar inside [matchCutInArcsec], 0
    disabling the matching; unmatched detections create FittedStars when
    [enlargeFittedList] is true and are dropped otherwise.
    The specification names [useFittedList] without describing it: it
    is taken to keep the FittedStars already in the list, with their
    counts reset, as the starting point, the merged catalog being built
    from scratch otherwise. *)
Definition associateCatalogs (matchCutInArcsec : double)
    (useFittedList enlargeFittedList : bool) (a : t) : t :=
  let start :=
    if useFittedList then clearBeforeAssoc <$> fittedStarList a else ∅ in
  let '(images, fitted) :=
    associateImages matchCutInArcsec enlargeFittedList start
      (ccdImageList a) in
  mk images fitted.

(** All detections, and those matched to the FittedStar [h]. *)
Definition detections (a : t) : list MeasuredStar :=
  concat (ccdImageList a).














Definition star (x y : double) : MeasuredStar :=
  mk_measured x y 1 None.

(** Four CcdImages with one detection each, at (0, 0), (3, 0), (3, 2)
    and (3, -2), associated with cutoff 2.5: the first detection stays
    alone, the other three are one FittedStar, which survives a minimum
    of two measurements. *)
Definition exampleCatalogs : t :=
  mk [[star 0 0]; [star 3 0]; [star 3 2]; [star 3 (-2)]] ∅.




End DoubleAssociations.

(** ** Auxiliary definitions used in the statements *)

(** The detection whose pixel position is the focal-plane position of
    [measuredStar]. *)
Definition atFocalPlane (measuredStar : MeasuredStar) : MeasuredStar :=
  {| ms_x := ms_xFocal measuredStar; ms_y := ms_yFocal measuredStar;
     ms_xFocal := ms_xFocal measuredStar;
     ms_yFocal := ms_yFocal measuredStar |}.

(** A run of [offsetParams] calls on one mapping. *)
Definition offsetAll {T : Type} `{PhotometryTransfo T}
    (deltas : list VectorXd) (m : PhotometryMapping.t) (σ : gmap loc T)
    : gmap loc T :=
  foldl (λ σ delta, PhotometryMapping.offsetParams delta m σ) σ deltas.

(** The same run seen from the transfo object. *)
Definition offsetTransfo {T : Type} `{PhotometryTransfo T}
    (deltas : list VectorXd) (t0 : T) : T :=
  foldl (λ t delta, transfo_offsetParams delta t) t0 deltas.

(** A one-parameter transfo that multiplies by a scale; it instantiates
    the interface where a statement is run on concrete values. *)
Module ScaleTransfo.

Definition offsetParams (delta : VectorXd) (scale : double) : double :=
  (scale - nth 0 delta 0)%float.

#[global, refine] Instance transfo : PhotometryTransfo double := {|
  transfo_inhabited := populate 1%float;
  transfo_getNpar := λ _, 1;
  transfo_getNpar_range := _;
  transfo_transform := λ scale _ _ value, (value * scale)%float;
  transfo_transformError := λ scale _ _ _ valueErr, (valueErr * scale)%float;
  transfo_clone := λ scale, scale;
  transfo_computeParameterDerivatives :=
    λ _ _ _ value derivatives, <[0%nat := value]> derivatives;
  transfo_offsetParams := offsetParams;
  transfo_getParameters := λ scale, [scale]
|}.
Proof. intros _. split; [discriminate | reflexivity]. Defined.

(** Two transfo objects at addresses 0 and 1. *)
Definition store : gmap loc double :=
  <[1%nat := 3%float]> (<[0%nat := 2%float]> ∅).

Definition star : MeasuredStar :=
  {| ms_x := 10%float; ms_y := 20%float;
     ms_xFocal := 0.5%float; ms_yFocal := 0.25%float |}.

(** A model with one mapping on each object. *)
Definition model : list Model.entry :=
  [Model.mk_entry "Model" (PhotometryMapping.new 0%nat);
   Model.mk_entry "Model" (PhotometryMapping.new 1%nat)].

(** A fit over that model and two star fluxes, before any index
    assignment. *)
Definition fit : PhotomFit.t double :=
  PhotomFit.mk "" false false 0 0 0 model store
    [PhotomFit.mk_flux 100%float 0; PhotomFit.mk_flux 200%float 0] 0.

(** A system with no entries and a backend whose solution is 1 in
    every entry. *)
Definition LSDerivatives (_ : PhotomFit.t double)
    : PhotomFit.TripletList * VectorXd := ([], []).

Definition solve (n : Z) (_ : PhotomFit.TripletList) (_ : VectorXd)
    : option (nat → double) := Some (λ _, 1%float).

(** A chip+visit mapping over the two objects, with one chip
    parameter being fitted, marked fixed. *)
Definition fixedChipVisit : ChipVisitPhotometryMapping.t :=
  ChipVisitPhotometryMapping.mk (to_unsigned (-1)) true 1 0
    (PhotometryMapping.new 0%nat) (PhotometryMapping.new 1%nat).

(** The mapping on the first object, offset once and then frozen. *)
Definition frozen : gmap loc double * PhotometryMapping.t :=
  PhotometryMapping.freezeErrorTransform
    (offsetAll [[0.5%float]] (PhotometryMapping.new 0%nat) store)
    (PhotometryMapping.new 0%nat).

End ScaleTransfo.

(** ** Chip+visit mappings over shared mapping objects *)

#[global] Instance PhotometryMapping_inhabited : Inhabited PhotometryMapping.t :=
  populate (PhotometryMapping.new 0%nat).

(** [ChipVisitPhotometryMapping] holds its two mappings through
    [std::shared_ptr<PhotometryMapping>]; here the two fields are
    addresses into a store of mapping objects, which several chip+visit
    mappings may share. *)
Module SharedChipVisit.

Record t := mk {
  index : Z;
  fixed : bool;
  _nParChip : Z;
  _nParVisit : Z;
  _chipMapping : loc;
  _visitMapping : loc
}.

Definition new (chipMapping visitMapping : loc) : t :=
  {| index := to_unsigned (-1); fixed := false;
     _nParChip := 0; _nParVisit := 0;
     _chipMapping := chipMapping; _visitMapping := visitMapping |}.

(** The mapping as it is seen through its two pointers. *)
Definition load (μ : gmap loc PhotometryMapping.t) (m : t)
    : ChipVisitPhotometryMapping.t :=
  ChipVisitPhotometryMapping.mk (index m) (fixed m)
    (_nParChip m) (_nParVisit m)
    (μ !!! _chipMapping m) (μ !!! _visitMapping m).

Definition getNpar (m : t) : Z := to_unsigned (_nParChip m + _nParVisit m).

Section Ops.
Context {T : Type} `{PhotometryTransfo T}.

Definition transform (μ : gmap loc PhotometryMapping.t) (σ : gmap loc T)
    (m : t) (measuredStar : MeasuredStar) (value : double) : double :=
  ChipVisitPhotometryMapping.transform σ (load μ m) measuredStar value.

(** [_chipMapping->freezeErrorTransform();
     _visitMapping->freezeErrorTransform();] on the two objects. *)
Definition freezeErrorTransform (μ : gmap loc PhotometryMapping.t)
    (σ : gmap loc T) (m : t)
    : gmap loc PhotometryMapping.t * gmap loc T :=
  let frozenChip :=
    PhotometryMapping.freezeErrorTransform σ (μ !!! _chipMapping m) in
  let μ1 := <[_chipMapping m := frozenChip.2]> μ in
  let frozenVisit :=
    PhotometryMapping.freezeErrorTransform frozenChip.1
      (μ1 !!! _visitMapping m) in
  (<[_visitMapping m := frozenVisit.2]> μ1, frozenVisit.1).

(** [Eigen::VectorXd joined(getNpar());
     joined << _chipMapping->getParameters(), _visitMapping->getParameters();]
    Eigen's comma initializer requires the pieces to fill the vector
    exactly and fails an assertion otherwise: [None]. *)
Definition getParameters (μ : gmap loc PhotometryMapping.t) (σ : gmap loc T)
    (m : t) : option VectorXd :=
  let joined :=
    PhotometryMapping.getParameters σ (μ !!! _chipMapping m)
    ++ PhotometryMapping.getParameters σ (μ !!! _visitMapping m) in
  if decide (Z.of_nat (length joined) = getNpar m) then Some joined
  else None.

End Ops.
End SharedChipVisit.

(** Mapping objects and chip+visit mappings over the two scale transfos:
    one chip mapping shared by two chip+visit mappings, each with a visit
    mapping of its own. *)
Module SharedExample.

Definition mappings : gmap loc PhotometryMapping.t :=
  <[2%nat := PhotometryMapping.new 1%nat]>
    (<[1%nat := PhotometryMapping.new 1%nat]>
       (<[0%nat := PhotometryMapping.new 0%nat]> ∅)).

Definition first : SharedChipVisit.t := SharedChipVisit.new 0%nat 1%nat.
Definition second : SharedChipVisit.t := SharedChipVisit.new 0%nat 2%nat.

(** Both levels being fitted: one parameter each. *)
Definition fitted : SharedChipVisit.t :=
  SharedChipVisit.mk (to_unsigned (-1)) false 1 1 0%nat 1%nat.

Definition chipVisit : ChipVisitPhotometryMapping.t :=
  ChipVisitPhotometryMapping.new
    (PhotometryMapping.new 0%nat) (PhotometryMapping.new 1%nat).

End SharedExample.

(** ** [ConvertTanWcs]: copying the SIP matrices into the polynomial *)
Module SipToGtransfo.

(** An [Eigen::MatrixXd], row after row. *)
Definition MatrixXd : Type := list (list double).

Definition rows (m : MatrixXd) : nat := length m.

Definition cols (m : MatrixXd) : nat :=
  match m with
  | [] => 0%nat
  | r :: _ => length r
  end.

(** [m(i, j)], the entry in row [i] and column [j]; Eigen leaves a read
    outside the matrix undefined, which is [None] here. *)
Definition coeff (m : MatrixXd) (i j : nat) : option double :=
  r ← m !! i; r !! j.

(** One assignment [sipPoly.Coeff(i, j, whichCoord) = value].
    [GtransfoPoly] is not part of the sources, so the loop is modelled by
    the assignments it makes, in order. *)
Definition Write : Type := nat * nat * nat * double.

(** [if (i < m.cols() && j < m.rows()) sipPoly.Coeff(i, j, k) = m(i, j);] *)
Definition copyEntry (m : MatrixXd) (whichCoord i j : nat)
    : option (list Write) :=
  if (i <? cols m)%nat && (j <? rows m)%nat
  then v ← coeff m i j; Some [(i, j, whichCoord, v)]
  else Some [].

(** The body of the inner loop: [sipA] into coordinate 0, then [sipB]
    into coordinate 1. *)
Definition copyCell (sipA sipB : MatrixXd) (ij : nat * nat)
    : option (list Write) :=
  a ← copyEntry sipA 0 ij.1 ij.2;
  b ← copyEntry sipB 1 ij.1 ij.2;
  Some (a ++ b).

Fixpoint runCells (sipA sipB : MatrixXd) (cells : list (nat * nat))
    : option (list Write) :=
  match cells with
  | [] => Some []
  | ij :: rest =>
      w ← copyCell sipA sipB ij;
      ws ← runCells sipA sipB rest;
      Some (w ++ ws)
  end.

(** [int sipOrder = std::max(A_ORDER, B_ORDER);
     for (int i = 0; i <= sipOrder; ++i)
       for (int j = 0; j <= sipOrder; ++j) ...] *)
Definition copySip (aOrder bOrder : Z) (sipA sipB : MatrixXd)
    : option (list Write) :=
  let sipOrder := Z.max aOrder bOrder in
  let range := seq 0 (Z.to_nat (sipOrder + 1)) in
  runCells sipA sipB (list_prod range range).

(** A matrix with [n] rows and [n] columns. *)
Definition square (n : nat) (m : MatrixXd) : Prop :=
  length m = n ∧ Forall (λ r, length r = n) m.

(** A 2 x 2 and a 1 x 1 matrix, and a matrix with 2 rows and 3 columns. *)
Definition exampleA : MatrixXd := [[1%float; 2%float]; [3%float; 4%float]].
Definition exampleB : MatrixXd := [[5%float]].
Definition exampleWide : MatrixXd :=
  [[1%float; 2%float; 3%float]; [4%float; 5%float; 6%float]].

End SipToGtransfo.

(** * Properties *)

(** ** Reading the store *)

Section StoreLemmas.
Context {T : Type} `{PhotometryTransfo T}.

Lemma lookup_total_Some (σ : gmap loc T) p t0 :
  σ !! p = Some t0 → σ !!! p = t0.
Proof. apply lookup_total_correct. Qed.

Lemma offsetAll_value (deltas : list VectorXd) m (σ : gmap loc T) t0 :
  σ !! PhotometryMapping._transfo m = Some t0 →
  offsetAll deltas m σ !! PhotometryMapping._transfo m
  = Some (offsetTransfo deltas t0).
Proof.
  revert σ t0. induction deltas as [|d ds IH]; intros σ t0 Hp; [done|].
  change (offsetAll ds m (PhotometryMapping.offsetParams d m σ)
            !! PhotometryMapping._transfo m
          = Some (offsetTransfo ds (transfo_offsetParams d t0))).
  apply IH. unfold PhotometryMapping.offsetParams.
  rewrite lookup_alter_eq, Hp. done.
Qed.

Lemma offsetAll_other (deltas : list VectorXd) m (σ : gmap loc T) q :
  q ≠ PhotometryMapping._transfo m →
  offsetAll deltas m σ !! q = σ !! q.
Proof.
  intros Hq. revert σ. induction deltas as [|d ds IH]; intros σ; [done|].
  change (offsetAll ds m (PhotometryMapping.offsetParams d m σ) !! q
          = σ !! q).
  rewrite IH. unfold PhotometryMapping.offsetParams.
  by rewrite lookup_alter_ne.
Qed.

Lemma fresh_not_allocated (σ : gmap loc T) p t0 :
  σ !! p = Some t0 → fresh (dom σ) ≠ p.
Proof.
  intros Hp Heq. apply (is_fresh (dom σ)). rewrite Heq.
  apply elem_of_dom. eauto.
Qed.

End StoreLemmas.

(** ** The chip+visit mapping composes chip then visit *)

(** C7. [ChipVisitPhotometryMapping::transform] is the visit transfo, at
    the focal-plane position of the star, applied to the result of the
    chip transfo at its pixel position; equivalently the visit mapping's
    transform at the focal-plane position after the chip mapping's
    transform. *)
Theorem ChipVisit_transform_is_composition {T : Type} `{PhotometryTransfo T}
    (σ : gmap loc T) (cv : ChipVisitPhotometryMapping.t)
    (ms : MeasuredStar) (v : double) :
  ChipVisitPhotometryMapping.transform σ cv ms v
  = transfo_transform
      (σ !!! PhotometryMapping.getTransfo
               (ChipVisitPhotometryMapping.getVisitMapping cv))
      (ms_xFocal ms) (ms_yFocal ms)
      (transfo_transform
         (σ !!! PhotometryMapping.getTransfo
                  (ChipVisitPhotometryMapping.getChipMapping cv))
         (ms_x ms) (ms_y ms) v)
  ∧ ChipVisitPhotometryMapping.transform σ cv ms v
    = PhotometryMapping.transform σ
        (ChipVisitPhotometryMapping.getVisitMapping cv) (atFocalPlane ms)
        (PhotometryMapping.transform σ
           (ChipVisitPhotometryMapping.getChipMapping cv) ms v).
Proof. split; reflexivity. Qed.

(** ** Freezing the error transform *)

(** C6. A mapping built by the constructor uses one transfo object for
    values and errors, so offsets show in [transformError]; after
    [freezeErrorTransform] the error transfo is a new object holding the
    clone of the value transfo at that moment, and further offsets change
    [transform] but no [transformError] result. *)
Theorem freezeErrorTransform_decouples {T : Type} `{PhotometryTransfo T}
    (σ : gmap loc T) (p : loc) (t0 : T) (before after : list VectorXd)
    (ms : MeasuredStar) (v e : double) :
  σ !! p = Some t0 →
  let m := PhotometryMapping.new p in
  let σ1 := offsetAll before m σ in
  let t1 := offsetTransfo before t0 in
  let σ2 := fst (PhotometryMapping.freezeErrorTransform σ1 m) in
  let m2 := snd (PhotometryMapping.freezeErrorTransform σ1 m) in
  let σ3 := offsetAll after m2 σ2 in
  PhotometryMapping.getTransfoErrors m = PhotometryMapping.getTransfo m
  ∧ PhotometryMapping.transformError σ1 m ms v e
    = transfo_transformError t1 (ms_x ms) (ms_y ms) v e
  ∧ PhotometryMapping.getTransfoErrors m2 ≠ PhotometryMapping.getTransfo m2
  ∧ σ2 !! PhotometryMapping.getTransfoErrors m2 = Some (transfo_clone t1)
  ∧ PhotometryMapping.transformError σ3 m2 ms v e
    = PhotometryMapping.transformError σ2 m2 ms v e
  ∧ PhotometryMapping.transformError σ3 m2 ms v e
    = transfo_transformError (transfo_clone t1) (ms_x ms) (ms_y ms) v e
  ∧ PhotometryMapping.transform σ3 m2 ms v
    = transfo_transform (offsetTransfo after t1) (ms_x ms) (ms_y ms) v.
Proof.
  intros Hp m σ1 t1 σ2 m2 σ3.
  assert (H1 : σ1 !! p = Some t1) by (apply (offsetAll_value before m); done).
  assert (Hq : fresh (dom σ1) ≠ p) by (eapply fresh_not_allocated; done).
  assert (H2e : σ2 !! fresh (dom σ1) = Some (transfo_clone t1)).
  { subst σ2. cbn. rewrite lookup_insert_eq. f_equal. f_equal.
    by apply lookup_total_Some. }
  assert (H2v : σ2 !! p = Some t1).
  { subst σ2. cbn. by rewrite lookup_insert_ne. }
  assert (H3e : σ3 !! fresh (dom σ1) = Some (transfo_clone t1)).
  { subst σ3. rewrite offsetAll_other; done. }
  assert (H3v : σ3 !! p = Some (offsetTransfo after t1)).
  { subst σ3. apply (offsetAll_value after m2). done. }
  unfold PhotometryMapping.transformError, PhotometryMapping.transform,
    PhotometryMapping.getTransfoErrors, PhotometryMapping.getTransfo.
  change (PhotometryMapping._transfoErrors m2) with (fresh (dom σ1)).
  change (PhotometryMapping._transfo m2) with p.
  change (PhotometryMapping._transfoErrors m) with p.
  change (PhotometryMapping._transfo m) with p.
  rewrite (lookup_total_Some _ _ _ H1), (lookup_total_Some _ _ _ H2e),
    (lookup_total_Some _ _ _ H3e), (lookup_total_Some _ _ _ H3v).
  repeat split; done.
Qed.

(** The statement above on two scale transfos, with one offset before
    and one after the freeze. *)
Lemma freezeErrorTransform_decouples_witness :
  ScaleTransfo.store !! 0%nat = Some 2%float
  ∧ PhotometryMapping.transformError
      (offsetAll [[1%float]] ScaleTransfo.frozen.2 ScaleTransfo.frozen.1)
      ScaleTransfo.frozen.2 ScaleTransfo.star 1%float 1%float
    = 1.5%float.
Proof.
  split; [reflexivity|].
  pose proof (freezeErrorTransform_decouples ScaleTransfo.store 0%nat
                2%float [[0.5%float]] [[1%float]]
                ScaleTransfo.star 1%float 1%float eq_refl) as Hd.
  cbv zeta in Hd.
  destruct Hd as (_ & _ & _ & _ & _ & Hd & _).
  unfold ScaleTransfo.frozen. rewrite Hd. vm_compute. reflexivity.
Defined.

(** ** Fixed mappings *)

(** A chip+visit mapping that fits its chip transfo and is marked
    fixed: the state [setWhatToFit(true, false)] and [setFixed(true)]
    leave behind on a one-parameter chip transfo. *)
Lemma fixed_ChipVisit_is_reached :
  ChipVisitPhotometryMapping.setFixed true
    (ChipVisitPhotometryMapping.setWhatToFit ScaleTransfo.store true false
       (ChipVisitPhotometryMapping.new
          (PhotometryMapping.new 0%nat) (PhotometryMapping.new 1%nat)))
  = ScaleTransfo.fixedChipVisit.
Proof. reflexivity. Qed.

(** C5, as stated, fails on the chip+visit mapping: marked fixed, it
    still reports the parameter of its chip transfo. *)
Lemma fixed_ChipVisit_keeps_parameters :
  ChipVisitPhotometryMapping.isFixed ScaleTransfo.fixedChipVisit = true
  ∧ ChipVisitPhotometryMapping.getNpar ScaleTransfo.fixedChipVisit = 1
  ∧ ChipVisitPhotometryMapping.getNpar ScaleTransfo.fixedChipVisit ≠ 0.
Proof. split_and!; [reflexivity | reflexivity | discriminate]. Qed.

(** C5, amended.  A single-transfo mapping marked fixed has no
    parameters, no indices, and leaves the derivative vector as it was.
    The chip+visit mapping does not consult the flag: its count is the
    sum of its two counters whatever the flag says, so it is 0 when both
    counters are 0, as they are in a newly built mapping. *)
Theorem fixed_mapping_has_no_parameters {T : Type} `{PhotometryTransfo T}
    (σ : gmap loc T) (m chip visit : PhotometryMapping.t)
    (cv : ChipVisitPhotometryMapping.t) (b : bool) (i : Z)
    (ms : MeasuredStar) (v : double) (derivatives : VectorXd) :
  PhotometryMapping.getNpar σ (PhotometryMapping.setFixed true m) = 0
  ∧ PhotometryMapping.computeParameterDerivatives σ
      (PhotometryMapping.setFixed true m) ms v derivatives
    = derivatives
  ∧ PhotometryMapping.getMappingIndices σ
      (PhotometryMapping.setFixed true m) []
    = []
  ∧ ChipVisitPhotometryMapping.getNpar
      (ChipVisitPhotometryMapping.setFixed b cv)
    = to_unsigned (ChipVisitPhotometryMapping.getNParChip cv
                   + ChipVisitPhotometryMapping.getNParVisit cv)
  ∧ ChipVisitPhotometryMapping.getNpar
      (ChipVisitPhotometryMapping.mk i b 0 0 chip visit)
    = 0
  ∧ ChipVisitPhotometryMapping.getNpar
      (ChipVisitPhotometryMapping.setFixed b
         (ChipVisitPhotometryMapping.new chip visit))
    = 0.
Proof. repeat split; reflexivity. Qed.

(** ** The common tangent point of a new [Associations] *)

(** C10. Both constructors leave the common tangent point at (NaN, NaN),
    and adding CcdImages does not change it. *)
Theorem new_Associations_tangent_point_is_NaN
    {CcdImage RefStar FittedStar : Type}
    (imageList added : list CcdImage) :
  let a1 : Associations.t CcdImage RefStar FittedStar :=
    foldl (λ a c, Associations.addCcdImage c a) Associations.new added in
  let a2 : Associations.t CcdImage RefStar FittedStar :=
    foldl (λ a c, Associations.addCcdImage c a)
          (Associations.new_from imageList) added in
  let p1 := Associations.getCommonTangentPoint a1 in
  let p2 := Associations.getCommonTangentPoint a2 in
  is_nan (Associations.x p1) = true ∧ is_nan (Associations.y p1) = true
  ∧ is_nan (Associations.x p2) = true ∧ is_nan (Associations.y p2) = true
  ∧ p1 = Associations.mk_point Associations.quiet_NaN Associations.quiet_NaN
  ∧ p2 = Associations.mk_point Associations.quiet_NaN Associations.quiet_NaN.
Proof.
  assert (Hkeep : ∀ (l : list CcdImage)
                    (a : Associations.t CcdImage RefStar FittedStar),
    Associations.getCommonTangentPoint
      (foldl (λ a c, Associations.addCcdImage c a) a l)
    = Associations.getCommonTangentPoint a).
  { induction l as [|c l IH]; intros a; [done|]. cbn [foldl]. by rewrite IH. }
  cbv zeta. rewrite !Hkeep. repeat split; reflexivity.
Qed.

(** ** Index assignment *)

Section IndexLemmas.
Context {T : Type} `{PhotometryTransfo T}.

Lemma to_unsigned_small z : 0 ≤ z < 2 ^ 32 → to_unsigned z = z.
Proof. intros Hz. unfold to_unsigned. by apply Z.mod_small. Qed.

Lemma to_unsigned_range z : 0 ≤ to_unsigned z < 2 ^ 32.
Proof. unfold to_unsigned. apply Z.mod_pos_bound. lia. Qed.

Lemma to_unsigned_inj_near a k1 k2 :
  0 ≤ k1 < 2 ^ 32 → 0 ≤ k2 < 2 ^ 32 →
  to_unsigned (a + k1) = to_unsigned (a + k2) → k1 = k2.
Proof.
  unfold to_unsigned. intros H1 H2 Heq.
  pose proof (Z.div_mod (a + k1) (2 ^ 32) ltac:(lia)) as E1.
  pose proof (Z.div_mod (a + k2) (2 ^ 32) ltac:(lia)) as E2.
  rewrite Heq in E1.
  set (q1 := (a + k1) / 2 ^ 32) in *. set (q2 := (a + k2) / 2 ^ 32) in *.
  assert (Hq : k1 - k2 = 2 ^ 32 * (q1 - q2)) by lia.
  assert (q1 - q2 = 0) by lia. lia.
Qed.

Lemma to_unsigned_idemp_add a k :
  to_unsigned (to_unsigned a + k) = to_unsigned (a + k).
Proof. unfold to_unsigned. apply Z.add_mod_idemp_l. lia. Qed.

Lemma getNpar_nonneg (σ : gmap loc T) m :
  0 ≤ PhotometryMapping.getNpar σ m.
Proof.
  unfold PhotometryMapping.getNpar. destruct (PhotometryMapping.fixed m).
  - done.
  - apply transfo_getNpar_range.
Qed.

(** The loop of [getMappingIndices] writes slot [k] for every
    [k] it visits and leaves the slots before untouched. *)
Lemma fill_indices (f : nat → Z) (j i : nat) (v : list Z) :
  length v = (i + j)%nat →
  foldl (λ v k, <[k := f k]> v) v (seq i j) = take i v ++ (f <$> seq i j).
Proof.
  revert i v. induction j as [|j IH]; intros i v Hlen.
  - cbn. rewrite app_nil_r, take_ge by lia. done.
  - cbn [seq foldl fmap list_fmap].
    rewrite IH by (rewrite length_insert; lia).
    rewrite (take_S_r _ _ (f i)) by (apply list_lookup_insert_eq; lia).
    rewrite take_insert_ge by lia. by rewrite <- app_assoc.
Qed.

Lemma getMappingIndices_nil (σ : gmap loc T) m :
  PhotometryMapping.getMappingIndices σ m []
  = (λ k : nat, to_unsigned (PhotometryMapping.index m + Z.of_nat k))
      <$> seq 0 (Z.to_nat (PhotometryMapping.getNpar σ m)).
Proof.
  unfold PhotometryMapping.getMappingIndices.
  set (n := Z.to_nat (PhotometryMapping.getNpar σ m)).
  destruct (Nat.ltb_spec (length (@nil Z)) n) as [Hlt|Hge].
  - rewrite fill_indices by (rewrite length_resize; lia). done.
  - cbn in Hge. assert (n = 0%nat) as -> by lia. done.
Qed.






Lemma totalNpar_nonneg (σ : gmap loc T) entries :
  0 ≤ Model.totalNpar σ entries.
Proof.
  induction entries as [|e rest IH]; [done|].
  cbn [Model.totalNpar foldr]. fold (Model.totalNpar σ rest).
  pose proof (getNpar_nonneg σ (Model.mapping e)). lia.
Qed.

(** Whatever [firstIndex] is, the indices are the 32-bit values of
    [firstIndex], [firstIndex + 1], ... one per parameter. *)
Lemma assignIndices_blocks (σ : gmap loc T) whatToFit entries firstIndex :
  (Model.assignIndices σ whatToFit firstIndex entries).2
  = firstIndex
    + Model.totalNpar σ
        (Model.assignIndices σ whatToFit firstIndex entries).1
  ∧ Model.allIndices σ
      (Model.assignIndices σ whatToFit firstIndex entries).1
    = (λ k : nat, to_unsigned (firstIndex + Z.of_nat k))
        <$> seq 0 (Z.to_nat
                     (Model.totalNpar σ
                        (Model.assignIndices σ whatToFit firstIndex
                           entries).1)).
Proof.
  revert firstIndex. induction entries as [|e rest IH]; intros first.
  - cbn. split; [lia | done].
  - cbn [Model.assignIndices].
    destruct (contains whatToFit (Model.component e)).
    + set (m := PhotometryMapping.setIndex first
                  (PhotometryMapping.setFixed false (Model.mapping e))) in *.
      pose proof (getNpar_nonneg σ m) as Hn.
      specialize (IH (first + PhotometryMapping.getNpar σ m)).
      destruct (Model.assignIndices σ whatToFit _ rest) as [rest' next].
      cbn [fst snd] in *. destruct IH as [Hsum Hall].
      pose proof (totalNpar_nonneg σ rest') as Hrest.
      unfold Model.allIndices in *.
      cbn [map concat Model.mapping Model.totalNpar foldr].
      fold (Model.totalNpar σ rest').
      split; [lia|].
      rewrite Hall, getMappingIndices_nil.
      rewrite Z2Nat.inj_add by lia. rewrite seq_app, fmap_app. f_equal.
      * apply list_fmap_ext. intros i k _.
        change (PhotometryMapping.index m) with (to_unsigned first).
        apply to_unsigned_idemp_add.
      * rewrite (Nat.add_comm 0), <- fmap_add_seq, <- list_fmap_compose.
        apply list_fmap_ext. intros i k _. unfold compose. f_equal. lia.
    + specialize (IH first).
      destruct (Model.assignIndices σ whatToFit first rest) as [rest' next].
      cbn [fst snd] in *. destruct IH as [Hsum Hall].
      unfold Model.allIndices in *.
      cbn [map concat Model.mapping Model.totalNpar foldr].
      fold (Model.totalNpar σ rest').
      change (PhotometryMapping.getNpar σ
                (PhotometryMapping.setFixed true (Model.mapping e)))
        with 0.
      rewrite getMappingIndices_nil.
      change (PhotometryMapping.getNpar σ
                (PhotometryMapping.setFixed true (Model.mapping e)))
        with 0.
      split; [lia|]. rewrite Z.add_0_l. exact Hall.
Qed.

(** Which mappings receive indices is decided by [whatToFit]. *)
Lemma assignIndices_follows_whatToFit (σ : gmap loc T) whatToFit entries
    firstIndex :
  Forall2
    (λ e e',
       Model.component e' = Model.component e
       ∧ PhotometryMapping.getTransfo (Model.mapping e')
         = PhotometryMapping.getTransfo (Model.mapping e)
       ∧ PhotometryMapping.isFixed (Model.mapping e')
         = negb (contains whatToFit (Model.component e))
       ∧ Z.of_nat
           (length (PhotometryMapping.getMappingIndices σ
                      (Model.mapping e') []))
         = if contains whatToFit (Model.component e)
           then transfo_getNpar
                  (σ !!! PhotometryMapping.getTransfo (Model.mapping e))
           else 0)
    entries (Model.assignIndices σ whatToFit firstIndex entries).1.
Proof.
  revert firstIndex. induction entries as [|e rest IH]; intros first.
  - constructor.
  - cbn [Model.assignIndices].
    destruct (contains whatToFit (Model.component e)) eqn:Hreq.
    + specialize (IH (first + PhotometryMapping.getNpar σ
                        (PhotometryMapping.setIndex first
                           (PhotometryMapping.setFixed false
                              (Model.mapping e))))).
      destruct (Model.assignIndices σ whatToFit _ rest) as [rest' next].
      cbn [fst] in *. constructor; [|exact IH].
      rewrite Hreq, getMappingIndices_nil, length_fmap, length_seq.
      split_and!; try done.
      cbn. pose proof (transfo_getNpar_range
                         (σ !!! PhotometryMapping._transfo (Model.mapping e))).
      unfold PhotometryMapping.getTransfo. lia.
    + specialize (IH first).
      destruct (Model.assignIndices σ whatToFit first rest) as [rest' next].
      cbn [fst] in *. constructor; [|exact IH].
      rewrite Hreq, getMappingIndices_nil. done.
Qed.

End IndexLemmas.




(** ** The fit step *)

Section FitLemmas.
Context {T : Type} `{PhotometryTransfo T}.

Lemma PhotomFit_assignIndices_returns (whatToFit : string)
    (fit : PhotomFit.t T) :
  PhotomFit.assignIndices whatToFit fit
  = ((PhotomFit.assignIndices whatToFit fit).1, Returned tt).
Proof.
  unfold PhotomFit.assignIndices.
  destruct (contains whatToFit "Model");
    [destruct (Model.assignIndices _ _ _ _) |]; reflexivity.
Qed.

Lemma PhotomFit_nParTot_nonneg (whatToFit : string) (fit : PhotomFit.t T) :
  0 ≤ PhotomFit._nParTot (PhotomFit.assignIndices whatToFit fit).1.
Proof.
  unfold PhotomFit.assignIndices.
  destruct (contains whatToFit "Model");
    [destruct (Model.assignIndices _ _ _ _) |]; cbn;
    unfold to_unsigned; apply Z.mod_pos_bound; lia.
Qed.

Lemma offsetParams_size_ok (delta : VectorXd) (fit : PhotomFit.t T) :
  Z.of_nat (length delta) = PhotomFit._nParTot fit →
  (PhotomFit.offsetParams delta fit).2 = Returned tt.
Proof.
  intros Hsize. unfold PhotomFit.offsetParams.
  rewrite Hsize, Z.eqb_refl. reflexivity.
Qed.

(** One step of the model's [offsetParams]. *)
Lemma Model_offsetParams_cons (delta : VectorXd) e rest (σ : gmap loc T) :
  Model.offsetParams delta (e :: rest) σ
  = Model.offsetParams delta rest
      (if PhotometryMapping.isFixed (Model.mapping e) then σ
       else PhotometryMapping.offsetParams
              (segment delta (PhotometryMapping.getIndex (Model.mapping e))
                 (PhotometryMapping.getNpar σ (Model.mapping e)))
              (Model.mapping e) σ).
Proof. reflexivity. Qed.

(** A transfo object that no variable mapping points to is left alone. *)
Lemma Model_offsetParams_frame (delta : VectorXd) entries (σ : gmap loc T) p :
  (∀ e, e ∈ entries →
        PhotometryMapping.isFixed (Model.mapping e) = false →
        PhotometryMapping.getTransfo (Model.mapping e) ≠ p) →
  Model.offsetParams delta entries σ !! p = σ !! p.
Proof.
  revert σ. induction entries as [|e rest IH]; intros σ Hne; [done|].
  rewrite Model_offsetParams_cons.
  rewrite IH by (intros e2 He2; apply Hne; by right).
  destruct (PhotometryMapping.isFixed (Model.mapping e)) eqn:Hfixed; [done|].
  unfold PhotometryMapping.offsetParams.
  apply lookup_alter_ne. apply Hne; [by left | done].
Qed.

(** The transfo object of a variable mapping, when no other variable
    mapping points to it, is offset once, by the mapping's slice. *)
Lemma Model_offsetParams_at (delta : VectorXd) entries (σ : gmap loc T) i e :
  entries !! i = Some e →
  PhotometryMapping.isFixed (Model.mapping e) = false →
  (∀ j e2, j ≠ i → entries !! j = Some e2 →
           PhotometryMapping.isFixed (Model.mapping e2) = false →
           PhotometryMapping.getTransfo (Model.mapping e2)
           ≠ PhotometryMapping.getTransfo (Model.mapping e)) →
  Model.offsetParams delta entries σ
    !! PhotometryMapping.getTransfo (Model.mapping e)
  = transfo_offsetParams
      (segment delta (PhotometryMapping.getIndex (Model.mapping e))
         (PhotometryMapping.getNpar σ (Model.mapping e)))
    <$> σ !! PhotometryMapping.getTransfo (Model.mapping e).
Proof.
  revert σ i. induction entries as [|a rest IH]; intros σ i Hi Hvar Hothers;
    [done|].
  rewrite Model_offsetParams_cons. destruct i as [|i]; cbn in Hi.
  - injection Hi as ->. rewrite Hvar.
    rewrite Model_offsetParams_frame.
    + unfold PhotometryMapping.offsetParams, PhotometryMapping.getTransfo.
      apply lookup_alter_eq.
    + intros e2 He2 Hvar2. apply list_elem_of_lookup in He2 as [j Hj].
      apply (Hothers (S j) e2); [lia | done | done].
  - assert (Hrest : ∀ j e2, j ≠ i → rest !! j = Some e2 →
              PhotometryMapping.isFixed (Model.mapping e2) = false →
              PhotometryMapping.getTransfo (Model.mapping e2)
              ≠ PhotometryMapping.getTransfo (Model.mapping e)).
    { intros j e2 Hj. apply (Hothers (S j) e2). lia. }
    rewrite (IH _ i Hi Hvar Hrest).
    destruct (PhotometryMapping.isFixed (Model.mapping a)) eqn:Hfixed;
      [done|].
    assert (Hne : PhotometryMapping.getTransfo (Model.mapping a)
                  ≠ PhotometryMapping.getTransfo (Model.mapping e))
      by (apply (Hothers 0%nat a); [lia | done | done]).
    unfold PhotometryMapping.offsetParams, PhotometryMapping.getNpar,
      PhotometryMapping.getTransfo in *.
    rewrite lookup_alter_ne by done.
    rewrite lookup_total_alter_ne by done. done.
Qed.

(** What [assignIndices] leaves in each member. *)
Lemma PhotomFit_assignIndices_state (whatToFit : string)
    (fit : PhotomFit.t T) :
  let assigned := (PhotomFit.assignIndices whatToFit fit).1 in
  PhotomFit._fittingModel assigned = contains whatToFit "Model"
  ∧ PhotomFit._fittingFluxes assigned = contains whatToFit "Fluxes"
  ∧ PhotomFit.transfos assigned = PhotomFit.transfos fit
  ∧ PhotomFit._photomModel assigned
    = (if contains whatToFit "Model"
       then (Model.assignIndices (PhotomFit.transfos fit) whatToFit 0
               (PhotomFit._photomModel fit)).1
       else PhotomFit._photomModel fit)
  ∧ PhotomFit._nParModel assigned
    = (if contains whatToFit "Model"
       then to_unsigned
              (Model.assignIndices (PhotomFit.transfos fit) whatToFit 0
                 (PhotomFit._photomModel fit)).2
       else 0)
  ∧ PhotomFit._nParFluxes assigned
    = (if contains whatToFit "Fluxes"
       then to_unsigned (Z.of_nat (length (PhotomFit.fittedFluxes fit)))
       else 0)
  ∧ PhotomFit._nParTot assigned
    = to_unsigned (PhotomFit._nParModel assigned
                   + PhotomFit._nParFluxes assigned)
  ∧ PhotomFit.fittedFluxes assigned
    = (if contains whatToFit "Fluxes"
       then PhotomFit.indexFluxes (PhotomFit._nParModel assigned)
              (PhotomFit.fittedFluxes fit)
       else PhotomFit.fittedFluxes fit).
Proof.
  unfold PhotomFit.assignIndices.
  destruct (contains whatToFit "Model");
    [destruct (Model.assignIndices _ _ _ _) |];
    destruct (contains whatToFit "Fluxes"); cbn; split_and!; reflexivity.
Qed.

(** The solution always has the size [offsetParams] asks for, so
    [minimize] has two outcomes. *)
Lemma PhotomFit_minimize_result
    (LSDerivatives : PhotomFit.t T → PhotomFit.TripletList * VectorXd)
    (solve : Z → PhotomFit.TripletList → VectorXd → option (nat → double))
    (whatToFit : string) (fit0 : PhotomFit.t T) :
  let assigned := (PhotomFit.assignIndices whatToFit fit0).1 in
  let system := LSDerivatives assigned in
  let ready :=
    (PhotomFit.setLastNTrip (Z.of_nat (length system.1)) assigned).1 in
  PhotomFit.minimize LSDerivatives solve whatToFit fit0
  = match solve (PhotomFit._nParTot assigned) system.1 system.2 with
    | None => (ready, Returned false)
    | Some entries =>
        let delta := PhotomFit.solution (PhotomFit._nParTot assigned)
                       entries in
        (PhotomFit.mk (PhotomFit._whatToFit ready)
           (PhotomFit._fittingModel ready) (PhotomFit._fittingFluxes ready)
           (PhotomFit._nParModel ready) (PhotomFit._nParFluxes ready)
           (PhotomFit._nParTot ready) (PhotomFit._photomModel ready)
           (if PhotomFit._fittingModel ready
            then Model.offsetParams delta (PhotomFit._photomModel ready)
                   (PhotomFit.transfos ready)
            else PhotomFit.transfos ready)
           (if PhotomFit._fittingFluxes ready
            then map (λ f, PhotomFit.mk_flux
                        (PhotomFit.flux f
                         + nth (Z.to_nat (PhotomFit.indexInMatrix f))
                             delta 0)%float
                        (PhotomFit.indexInMatrix f))
                     (PhotomFit.fittedFluxes ready)
            else PhotomFit.fittedFluxes ready)
           (PhotomFit._lastNTrip ready),
         Returned true)
    end.
Proof.
  intros assigned system ready.
  unfold PhotomFit.minimize, bind, get.
  rewrite PhotomFit_assignIndices_returns. fold assigned. subst ready system.
  destruct (LSDerivatives assigned) as [tripletList grad]. cbn [fst snd].
  unfold bind. cbn [PhotomFit.setLastNTrip fst].
  destruct (solve _ _ _) as [entries|]; [|reflexivity].
  unfold PhotomFit.offsetParams at 1. cbn [PhotomFit._nParTot].
  assert (Hsize : Z.of_nat (length (PhotomFit.solution
                                      (PhotomFit._nParTot assigned) entries))
                  = PhotomFit._nParTot assigned).
  { unfold PhotomFit.solution. rewrite length_fmap, length_seq.
    pose proof (PhotomFit_nParTot_nonneg whatToFit fit0) as Hnn.
    fold assigned in Hnn. lia. }
  rewrite Hsize, Z.eqb_refl. reflexivity.
Qed.

End FitLemmas.

(** C8. After [assignIndices], a [delta] whose length differs from the
    total parameter count makes [offsetParams] throw a usage error, and
    the fit, with every parameter in it, is as it was before the call. *)
Theorem offsetParams_rejects_wrong_length {T : Type} `{PhotometryTransfo T}
    (fit0 : PhotomFit.t T) (whatToFit : string) (delta : VectorXd) :
  Z.of_nat (length delta)
    ≠ PhotomFit._nParTot (PhotomFit.assignIndices whatToFit fit0).1 →
  PhotomFit.offsetParams delta (PhotomFit.assignIndices whatToFit fit0).1
  = ((PhotomFit.assignIndices whatToFit fit0).1, Thrown UsageError).
Proof.
  intros Hsize. unfold PhotomFit.offsetParams.
  destruct (Z.eqb_spec (Z.of_nat (length delta))
              (PhotomFit._nParTot (PhotomFit.assignIndices whatToFit fit0).1))
    as [Heq|Hne]; [done | reflexivity].
Qed.

(** Four parameters are assigned (two mappings, two fluxes); a delta of
    length three is refused. *)
Lemma offsetParams_rejects_wrong_length_witness :
  Z.of_nat (length [1%float; 2%float; 3%float])
    ≠ PhotomFit._nParTot
        (PhotomFit.assignIndices "Model Fluxes" ScaleTransfo.fit).1
  ∧ PhotomFit.offsetParams [1%float; 2%float; 3%float]
      (PhotomFit.assignIndices "Model Fluxes" ScaleTransfo.fit).1
    = ((PhotomFit.assignIndices "Model Fluxes" ScaleTransfo.fit).1,
       Thrown UsageError).
Proof.
  assert (Hne : Z.of_nat (length [1%float; 2%float; 3%float])
                ≠ PhotomFit._nParTot
                    (PhotomFit.assignIndices "Model Fluxes"
                       ScaleTransfo.fit).1)
    by (vm_compute; discriminate).
  split; [exact Hne|].
  exact (offsetParams_rejects_wrong_length ScaleTransfo.fit "Model Fluxes"
           [1%float; 2%float; 3%float] Hne).
Defined.

(** C4. [minimize] never throws: it returns false exactly when the
    factorization fails and true otherwise.  In both cases it has
    assigned the indices: with "Model" requested, the mappings that
    [whatToFit] requests are variable and their indices run from 0, the
    others are fixed; with "Fluxes" requested, the fluxes are indexed
    after the model's parameters; the triplet count of the accumulated
    system is recorded.  When the factorization fails, no transfo and no
    flux has changed.  When it succeeds, every flux being fitted has been
    offset by its entry of the solution, the transfo of every variable
    mapping (pointed to by no other variable mapping) has been offset by
    the mapping's slice of the solution, which starts at the mapping's
    index and has one entry per parameter, and the transfo objects that
    no variable mapping points to are as they were. *)
Theorem minimize_false_iff_factorization_fails
    {T : Type} `{PhotometryTransfo T}
    (LSDerivatives : PhotomFit.t T → PhotomFit.TripletList * VectorXd)
    (solve : Z → PhotomFit.TripletList → VectorXd → option (nat → double))
    (fit0 : PhotomFit.t T) (whatToFit : string) :
  let σ0 := PhotomFit.transfos fit0 in
  let assigned := (PhotomFit.assignIndices whatToFit fit0).1 in
  let system := LSDerivatives assigned in
  let solved := solve (PhotomFit._nParTot assigned) system.1 system.2 in
  let result := PhotomFit.minimize LSDerivatives solve whatToFit fit0 in
  let final := result.1 in
  let entries' := PhotomFit._photomModel final in
  (∃ b, result.2 = Returned b ∧ (b = false ↔ solved = None))
  ∧ (if contains whatToFit "Model" then
       Forall2
         (λ e e',
            Model.component e' = Model.component e
            ∧ PhotometryMapping.getTransfo (Model.mapping e')
              = PhotometryMapping.getTransfo (Model.mapping e)
            ∧ PhotometryMapping.isFixed (Model.mapping e')
              = negb (contains whatToFit (Model.component e))
            ∧ Z.of_nat
                (length (PhotometryMapping.getMappingIndices σ0
                           (Model.mapping e') []))
              = if contains whatToFit (Model.component e)
                then transfo_getNpar
                       (σ0 !!! PhotometryMapping.getTransfo (Model.mapping e))
                else 0)
         (PhotomFit._photomModel fit0) entries'
       ∧ Model.allIndices σ0 entries'
         = (λ k : nat, to_unsigned (Z.of_nat k))
             <$> seq 0 (Z.to_nat (Model.totalNpar σ0 entries'))
       ∧ PhotomFit._nParModel final
         = to_unsigned (Model.totalNpar σ0 entries')
     else
       entries' = PhotomFit._photomModel fit0
       ∧ PhotomFit._nParModel final = 0)
  ∧ length (PhotomFit.fittedFluxes final)
    = length (PhotomFit.fittedFluxes fit0)
  ∧ (∀ k f f',
       PhotomFit.fittedFluxes fit0 !! k = Some f →
       PhotomFit.fittedFluxes final !! k = Some f' →
       PhotomFit.indexInMatrix f'
       = if contains whatToFit "Fluxes"
         then to_unsigned (PhotomFit._nParModel final + Z.of_nat k)
         else PhotomFit.indexInMatrix f)
  ∧ PhotomFit._nParTot final
    = to_unsigned
        (PhotomFit._nParModel final
         + (if contains whatToFit "Fluxes"
            then to_unsigned
                   (Z.of_nat (length (PhotomFit.fittedFluxes fit0)))
            else 0))
  ∧ PhotomFit._lastNTrip final = Z.of_nat (length system.1)
  ∧ (solved = None →
     result.2 = Returned false
     ∧ PhotomFit.transfos final = σ0
     ∧ PhotomFit.flux <$> PhotomFit.fittedFluxes final
       = PhotomFit.flux <$> PhotomFit.fittedFluxes fit0)
  ∧ (∀ entries, solved = Some entries →
     let delta := entries <$> seq 0 (Z.to_nat (PhotomFit._nParTot final)) in
     result.2 = Returned true
     ∧ Z.of_nat (length delta) = PhotomFit._nParTot final
     ∧ (∀ k f f',
          PhotomFit.fittedFluxes fit0 !! k = Some f →
          PhotomFit.fittedFluxes final !! k = Some f' →
          PhotomFit.flux f'
          = if contains whatToFit "Fluxes"
            then (PhotomFit.flux f
                  + nth (Z.to_nat
                           (to_unsigned
                              (PhotomFit._nParModel final + Z.of_nat k)))
                      delta 0)%float
            else PhotomFit.flux f)
     ∧ (if contains whatToFit "Model" then
          (∀ p,
             (∀ e', e' ∈ entries' →
                    PhotometryMapping.isFixed (Model.mapping e') = false →
                    PhotometryMapping.getTransfo (Model.mapping e') ≠ p) →
             PhotomFit.transfos final !! p = σ0 !! p)
          ∧ (∀ i e',
               entries' !! i = Some e' →
               PhotometryMapping.isFixed (Model.mapping e') = false →
               (∀ j e2, j ≠ i → entries' !! j = Some e2 →
                  PhotometryMapping.isFixed (Model.mapping e2) = false →
                  PhotometryMapping.getTransfo (Model.mapping e2)
                  ≠ PhotometryMapping.getTransfo (Model.mapping e')) →
               PhotomFit.transfos final
                 !! PhotometryMapping.getTransfo (Model.mapping e')
               = transfo_offsetParams
                   (take
                      (Z.to_nat
                         (transfo_getNpar
                            (σ0 !!! PhotometryMapping.getTransfo
                                      (Model.mapping e'))))
                      (drop
                         (Z.to_nat
                            (PhotometryMapping.index (Model.mapping e')))
                         delta))
                 <$> σ0 !! PhotometryMapping.getTransfo (Model.mapping e'))
        else PhotomFit.transfos final = σ0)).
Proof.
  intros σ0 assigned system solved result final entries'.
  pose proof (PhotomFit_minimize_result LSDerivatives solve whatToFit fit0)
    as Hres.
  cbv zeta in Hres. fold assigned in Hres. fold system in Hres.
  fold solved in Hres. fold result in Hres.
  destruct (PhotomFit_assignIndices_state whatToFit fit0)
    as (Hfm & Hff & Hσ & Hmodel & HnM & HnF & HnT & Hfl).
  fold assigned in Hfm, Hff, Hσ, Hmodel, HnM, HnF, HnT, Hfl.
  fold σ0 in Hσ, Hmodel, HnM.
  pose proof (PhotomFit_nParTot_nonneg whatToFit fit0) as Hnn.
  fold assigned in Hnn.
  (* the members that do not depend on the outcome of the solve *)
  assert (Hentries : entries' = PhotomFit._photomModel assigned)
    by (subst entries' final; rewrite Hres; by destruct solved).
  assert (HfM : PhotomFit._nParModel final = PhotomFit._nParModel assigned)
    by (subst final; rewrite Hres; by destruct solved).
  assert (HfT : PhotomFit._nParTot final = PhotomFit._nParTot assigned)
    by (subst final; rewrite Hres; by destruct solved).
  assert (HfN : PhotomFit._lastNTrip final = Z.of_nat (length system.1))
    by (subst final; rewrite Hres; by destruct solved).
  assert (Hidx : PhotomFit.indexInMatrix <$> PhotomFit.fittedFluxes final
                 = PhotomFit.indexInMatrix
                     <$> PhotomFit.fittedFluxes assigned).
  { subst final. rewrite Hres. destruct solved; [|done]. cbn.
    destruct (PhotomFit._fittingFluxes assigned); [|done].
    change (map ?f ?l) with (f <$> l). rewrite <- list_fmap_compose.
    by apply list_fmap_ext. }
  assert (Hlen : length (PhotomFit.fittedFluxes final)
                 = length (PhotomFit.fittedFluxes fit0)).
  { rewrite <- (length_fmap PhotomFit.indexInMatrix), Hidx, length_fmap, Hfl.
    destruct (contains whatToFit "Fluxes"); [|done].
    unfold PhotomFit.indexFluxes. by rewrite length_imap. }
  split_and!.
  - rewrite Hres. destruct solved.
    + exists true. split; [done|]. split; discriminate.
    + exists false. done.
  - rewrite Hentries, HfM, HnM, Hmodel.
    destruct (contains whatToFit "Model"); [|done].
    destruct (assignIndices_blocks σ0 whatToFit
                (PhotomFit._photomModel fit0) 0) as [Hsum Hall].
    split_and!.
    + apply assignIndices_follows_whatToFit.
    + rewrite Hall. by apply list_fmap_ext.
    + rewrite Hsum. by rewrite Z.add_0_l.
  - exact Hlen.
  - intros k f f' Hk Hk'.
    assert (Hi : (PhotomFit.indexInMatrix
                    <$> PhotomFit.fittedFluxes final) !! k
                 = Some (PhotomFit.indexInMatrix f'))
      by (by rewrite list_lookup_fmap, Hk').
    rewrite Hidx, Hfl, HfM in *.
    destruct (contains whatToFit "Fluxes").
    + unfold PhotomFit.indexFluxes in Hi.
      rewrite list_lookup_fmap, list_lookup_imap, Hk in Hi. cbn in Hi.
      by injection Hi as <-.
    + rewrite list_lookup_fmap, Hk in Hi. cbn in Hi. by injection Hi as <-.
  - by rewrite HfT, HnT, HfM, HnF.
  - exact HfN.
  - intros Hnone. subst final. rewrite Hres, Hnone. cbn.
    split_and!; [done | exact Hσ |].
    rewrite Hfl. destruct (contains whatToFit "Fluxes"); [|done].
    unfold PhotomFit.indexFluxes. apply list_eq. intros k.
    rewrite !list_lookup_fmap, list_lookup_imap.
    by destruct (PhotomFit.fittedFluxes fit0 !! k).
  - intros entries Hsome delta. subst delta. rewrite HfT.
    fold (PhotomFit.solution (PhotomFit._nParTot assigned) entries).
    set (delta := PhotomFit.solution (PhotomFit._nParTot assigned) entries).
    assert (Hfinal_σ : PhotomFit.transfos final
              = if contains whatToFit "Model"
                then Model.offsetParams delta entries' σ0
                else σ0).
    { rewrite Hentries. subst final. rewrite Hres, Hsome. cbn.
      rewrite Hfm, Hσ. done. }
    assert (Hfinal_fl : PhotomFit.fittedFluxes final
              = if contains whatToFit "Fluxes"
                then (λ f, PhotomFit.mk_flux
                             (PhotomFit.flux f
                              + nth (Z.to_nat (PhotomFit.indexInMatrix f))
                                  delta 0)%float
                             (PhotomFit.indexInMatrix f))
                     <$> PhotomFit.indexFluxes
                           (PhotomFit._nParModel assigned)
                           (PhotomFit.fittedFluxes fit0)
                else PhotomFit.fittedFluxes fit0).
    { subst final. rewrite Hres, Hsome. cbn. rewrite Hff, Hfl.
      by destruct (contains whatToFit "Fluxes"). }
    split_and!.
    + by rewrite Hres, Hsome.
    + subst delta. unfold PhotomFit.solution.
      rewrite length_fmap, length_seq. lia.
    + intros k f f' Hk Hk'. rewrite Hfinal_fl, HfM in *.
      destruct (contains whatToFit "Fluxes").
      * unfold PhotomFit.indexFluxes in Hk'.
        rewrite list_lookup_fmap, list_lookup_imap, Hk in Hk'. cbn in Hk'.
        by injection Hk' as <-.
      * rewrite Hk in Hk'. by injection Hk' as <-.
    + rewrite Hfinal_σ. destruct (contains whatToFit "Model"); [|done].
      split.
      * intros p Hp. by apply Model_offsetParams_frame.
      * intros i e' Hi Hvar Hothers.
        rewrite (Model_offsetParams_at delta entries' σ0 i e' Hi Hvar Hothers).
        unfold PhotometryMapping.getNpar.
        unfold PhotometryMapping.isFixed in Hvar. rewrite Hvar. done.
Qed.

(** The step on the example fit, with a solution that is 1 in every
    entry: [minimize] returns true and the first transfo, a scale of 2
    whose offset subtracts, has become 1. *)
Lemma minimize_false_iff_factorization_fails_witness :
  (PhotomFit.minimize ScaleTransfo.LSDerivatives ScaleTransfo.solve
     "Model Fluxes" ScaleTransfo.fit).2
  = Returned true
  ∧ PhotomFit.transfos
      (PhotomFit.minimize ScaleTransfo.LSDerivatives ScaleTransfo.solve
         "Model Fluxes" ScaleTransfo.fit).1 !! 0%nat
    = Some 1%float.
Proof.
  destruct (minimize_false_iff_factorization_fails
              ScaleTransfo.LSDerivatives ScaleTransfo.solve
              ScaleTransfo.fit "Model Fluxes")
    as (_ & _ & _ & _ & _ & _ & _ & Hsome).
  destruct (Hsome (λ _, 1%float) eq_refl) as (Htrue & _ & _ & Hmodel).
  split; [exact Htrue|].
  change (contains "Model Fluxes" "Model") with true in Hmodel.
  destruct Hmodel as [_ Hat].
  refine (eq_trans
            (Hat 0%nat
               (Model.mk_entry "Model"
                  (PhotometryMapping.setIndex 0
                     (PhotometryMapping.setFixed false
                        (PhotometryMapping.new 0%nat)))) _ _ _) _).
  - vm_compute. reflexivity.
  - reflexivity.
  - intros [|[|j]] e2 Hj Hlookup _.
    + done.
    + vm_compute in Hlookup. injection Hlookup as <-. discriminate.
    + vm_compute in Hlookup. discriminate.
  - vm_compute. reflexivity.
Defined.

(** ** Association: how many FittedStars a cutoff produces *)

Section AssociationCounting.
Import AssociationModel.
Local Open Scope Qc_scope.
Local Open Scope nat_scope.

Lemma within_zero (d2 : Qc) : within 0 d2 = false.
Proof. reflexivity. Qed.

Lemma findClosest_zero (fitted : gmap nat FittedStar) (ms : MeasuredStar) :
  findClosest 0 fitted ms = None.
Proof.
  unfold findClosest.
  assert (Hnone : ∀ l, foldl (closer 0 ms) None l = None).
  { induction l as [|c l IH]; [done|]. cbn [foldl]. unfold closer at 2.
    by rewrite within_zero. }
  by rewrite Hnone.
Qed.

Lemma size_alter (f : FittedStar → FittedStar) h
    (fitted : gmap nat FittedStar) :
  size (alter f h fitted) = size fitted.
Proof. by rewrite <- !size_dom, dom_alter_L. Qed.

Lemma size_insert_fresh (fs : FittedStar) (fitted : gmap nat FittedStar) :
  size (<[fresh (dom fitted) := fs]> fitted) = S (size fitted).
Proof.
  apply map_size_insert_None, not_elem_of_dom, is_fresh.
Qed.

(** Whatever the cutoff, an image adds at most one FittedStar per
    detection, and none when the list is not enlarged. *)
Lemma associateImage_size_le matchCut enlarge existing fitted image :
  size (associateImage matchCut enlarge existing fitted image).2
  ≤ size fitted + (if enlarge then length image else 0).
Proof.
  revert fitted. induction image as [|ms rest IH]; intros fitted.
  - cbn. lia.
  - cbn [associateImage].
    destruct (findClosest matchCut existing ms) as [h|].
    + specialize (IH (alter addMeasurement h fitted)).
      destruct (associateImage _ _ _ (alter addMeasurement h fitted) rest).
      cbn [snd length] in *. rewrite size_alter in IH.
      destruct enlarge; lia.
    + destruct enlarge.
      * specialize (IH (<[fresh (dom fitted) := fromMeasured ms]> fitted)).
        destruct (associateImage _ _ _ (<[_ := _]> fitted) rest).
        cbn [snd length] in *. rewrite size_insert_fresh in IH. lia.
      * specialize (IH fitted).
        destruct (associateImage _ _ _ fitted rest).
        cbn [snd length] in *. lia.
Qed.

(** With cutoff 0 the bound is attained. *)
Lemma associateImage_size_zero enlarge existing fitted image :
  size (associateImage 0 enlarge existing fitted image).2
  = size fitted + (if enlarge then length image else 0).
Proof.
  revert fitted. induction image as [|ms rest IH]; intros fitted.
  - cbn. destruct enlarge; lia.
  - cbn [associateImage]. rewrite findClosest_zero.
    destruct enlarge.
    + specialize (IH (<[fresh (dom fitted) := fromMeasured ms]> fitted)).
      destruct (associateImage _ _ _ (<[_ := _]> fitted) rest).
      cbn [snd length] in *. rewrite size_insert_fresh in IH. lia.
    + specialize (IH fitted).
      destruct (associateImage _ _ _ fitted rest).
      cbn [snd length] in *. lia.
Qed.

Lemma associateImages_size_le matchCut enlarge fitted images :
  size (associateImages matchCut enlarge fitted images).2
  ≤ size fitted + (if enlarge then length (concat images) else 0).
Proof.
  revert fitted. induction images as [|image rest IH]; intros fitted.
  - cbn. lia.
  - cbn [associateImages concat].
    pose proof (associateImage_size_le matchCut enlarge fitted fitted image)
      as Himg.
    destruct (associateImage matchCut enlarge fitted fitted image)
      as [image' fitted'].
    specialize (IH fitted').
    destruct (associateImages matchCut enlarge fitted' rest).
    cbn [snd] in *. rewrite length_app. destruct enlarge; lia.
Qed.

Lemma associateImages_size_zero enlarge fitted images :
  size (associateImages 0 enlarge fitted images).2
  = size fitted + (if enlarge then length (concat images) else 0).
Proof.
  revert fitted. induction images as [|image rest IH]; intros fitted.
  - cbn. destruct enlarge; lia.
  - cbn [associateImages concat].
    pose proof (associateImage_size_zero enlarge fitted fitted image) as Himg.
    destruct (associateImage 0 enlarge fitted fitted image)
      as [image' fitted'].
    specialize (IH fitted').
    destruct (associateImages 0 enlarge fitted' rest).
    cbn [snd] in *. rewrite length_app. destruct enlarge; lia.
Qed.

Lemma associateCatalogs_fitted matchCut useFittedList enlarge a :
  fittedStarList (associateCatalogs matchCut useFittedList enlarge a)
  = (associateImages matchCut enlarge
       (if useFittedList then clearBeforeAssoc <$> fittedStarList a else ∅)
       (ccdImageList a)).2.
Proof.
  unfold associateCatalogs. by destruct (associateImages _ _ _ _).
Qed.

Lemma associateCatalogs_images matchCut useFittedList enlarge a :
  ccdImageList (associateCatalogs matchCut useFittedList enlarge a)
  = (associateImages matchCut enlarge
       (if useFittedList then clearBeforeAssoc <$> fittedStarList a else ∅)
       (ccdImageList a)).1.
Proof.
  unfold associateCatalogs. by destruct (associateImages _ _ _ _).
Qed.

End AssociationCounting.

(** C3, as stated, fails: on the example catalogs the cutoff 5/2 merges
    the two last detections into the second FittedStar (2 FittedStars),
    while the looser cutoff 7/2 first merges the second detection into
    the first, after which the two last detections match nothing
    (3 FittedStars). *)
Lemma looser_cutoff_can_produce_more_FittedStars :
  (Q2Qc (5 # 2) < Q2Qc (7 # 2))%Qc
  ∧ ¬ (size (AssociationModel.fittedStarList
              (AssociationModel.associateCatalogs (Q2Qc (7 # 2)) false true
                 AssociationModel.exampleCatalogs))
       ≤ size (AssociationModel.fittedStarList
                 (AssociationModel.associateCatalogs (Q2Qc (5 # 2)) false true
                    AssociationModel.exampleCatalogs)))%nat.
Proof.
  split; [reflexivity|].
  assert (H3 : size (AssociationModel.fittedStarList
                (AssociationModel.associateCatalogs (Q2Qc (7 # 2)) false true
                   AssociationModel.exampleCatalogs)) = 3%nat)
    by (vm_compute; reflexivity).
  assert (H2 : size (AssociationModel.fittedStarList
                (AssociationModel.associateCatalogs (Q2Qc (5 # 2)) false true
                   AssociationModel.exampleCatalogs)) = 2%nat)
    by (vm_compute; reflexivity).
  rewrite H3, H2. lia.
Qed.

(** C3, amended.  On the same catalogs and with the same flags, no cutoff
    produces more FittedStars than the cutoff 0, which matches nothing. *)
Theorem no_cutoff_produces_more_than_cutoff_zero
    (matchCut : Qc) (useFittedList enlargeFittedList : bool)
    (a : AssociationModel.t) :
  (size (AssociationModel.fittedStarList
           (AssociationModel.associateCatalogs matchCut useFittedList
              enlargeFittedList a))
   ≤ size (AssociationModel.fittedStarList
             (AssociationModel.associateCatalogs 0%Qc useFittedList
                enlargeFittedList a)))%nat.
Proof.
  rewrite !associateCatalogs_fitted, associateImages_size_zero.
  apply associateImages_size_le.
Qed.

(** ** Association with cutoff 0 *)

Section AssociationWithoutMatching.
Import AssociationModel.
Local Open Scope nat_scope.

Lemma fresh_lookup_None (fitted : gmap nat FittedStar) :
  fitted !! fresh (dom fitted) = None.
Proof. apply not_elem_of_dom, is_fresh. Qed.

(** With cutoff 0 and an enlarged list, every detection of an image
    refers to a FittedStar that did not exist before and was created from
    it, and no two detections refer to the same one. *)
Lemma associateImage_zero_own existing fitted image :
  fitted ⊆ (associateImage 0 true existing fitted image).2
  ∧ setFittedStar None <$> (associateImage 0 true existing fitted image).1
    = setFittedStar None <$> image
  ∧ Forall (λ ms, ∃ h, fittedStar ms = Some h ∧ fitted !! h = None
                       ∧ (associateImage 0 true existing fitted image).2 !! h
                         = Some (fromMeasured ms))
           (associateImage 0 true existing fitted image).1
  ∧ NoDup (fittedStar <$> (associateImage 0 true existing fitted image).1).
Proof.
  revert fitted. induction image as [|ms rest IH]; intros fitted.
  - cbn. split_and!; [done | done | constructor | constructor].
  - cbn [associateImage]. rewrite findClosest_zero.
    set (h := fresh (dom fitted)).
    assert (Hh : fitted !! h = None) by apply fresh_lookup_None.
    specialize (IH (<[h := fromMeasured ms]> fitted)).
    destruct (associateImage 0 true existing (<[h := fromMeasured ms]> fitted)
                rest) as [rest' fitted'].
    cbn [fst snd] in *. destruct IH as (Hsub & Hsame & Hown & Hnd).
    assert (Hh' : fitted' !! h = Some (fromMeasured ms)).
    { eapply lookup_weaken; [|exact Hsub]. apply lookup_insert_eq. }
    split_and!.
    + etrans; [|exact Hsub]. by apply insert_subseteq.
    + cbn. by rewrite Hsame.
    + constructor.
      * exists h. split_and!; done.
      * eapply Forall_impl; [exact Hown|].
        intros ms' (h' & Hms' & Hnone & Hsome). exists h'.
        split_and!; [done | | done].
        apply lookup_insert_None in Hnone. tauto.
    + cbn. apply NoDup_cons. split; [|done].
      intros Hin. apply list_elem_of_fmap in Hin as (ms' & Heq & Hin).
      rewrite Forall_forall in Hown.
      destruct (Hown ms' Hin) as (h' & Hms' & Hnone & _).
      rewrite Hms' in Heq. injection Heq as ->.
      by rewrite lookup_insert_eq in Hnone.
Qed.

Lemma associateImages_zero_own fitted images :
  fitted ⊆ (associateImages 0 true fitted images).2
  ∧ setFittedStar None <$> concat (associateImages 0 true fitted images).1
    = setFittedStar None <$> concat images
  ∧ Forall (λ ms, ∃ h, fittedStar ms = Some h ∧ fitted !! h = None
                       ∧ (associateImages 0 true fitted images).2 !! h
                         = Some (fromMeasured ms))
           (concat (associateImages 0 true fitted images).1)
  ∧ NoDup (fittedStar <$> concat (associateImages 0 true fitted images).1).
Proof.
  revert fitted. induction images as [|image rest IH]; intros fitted.
  - cbn. split_and!; [done | done | constructor | constructor].
  - cbn [associateImages].
    pose proof (associateImage_zero_own fitted fitted image)
      as (Hsub1 & Hsame1 & Hown1 & Hnd1).
    destruct (associateImage 0 true fitted fitted image) as [image' fitted1].
    specialize (IH fitted1).
    destruct (associateImages 0 true fitted1 rest) as [rest' fitted2].
    cbn [fst snd concat] in *. destruct IH as (Hsub2 & Hsame2 & Hown2 & Hnd2).
    split_and!.
    + by etrans.
    + by rewrite !fmap_app, Hsame1, Hsame2.
    + apply Forall_app. split.
      * eapply Forall_impl; [exact Hown1|].
        intros ms (h & Hms & Hnone & Hsome). exists h.
        split_and!; [done | done |]. by eapply lookup_weaken.
      * eapply Forall_impl; [exact Hown2|].
        intros ms (h & Hms & Hnone & Hsome). exists h.
        split_and!; [done | | done].
        destruct (fitted !! h) as [fs|] eqn:E; [|done].
        by rewrite (lookup_weaken _ _ _ _ E Hsub1) in Hnone.
    + rewrite fmap_app. apply NoDup_app. split_and!; [done | | done].
      intros o Ho1 Ho2.
      apply list_elem_of_fmap in Ho1 as (ms1 & -> & Hin1).
      apply list_elem_of_fmap in Ho2 as (ms2 & Heq & Hin2).
      rewrite Forall_forall in Hown1, Hown2.
      destruct (Hown1 ms1 Hin1) as (h1 & Hms1 & _ & Hsome1).
      destruct (Hown2 ms2 Hin2) as (h2 & Hms2 & Hnone2 & _).
      rewrite Hms1, Hms2 in Heq. injection Heq as ->.
      by rewrite Hsome1 in Hnone2.
Qed.

End AssociationWithoutMatching.

(** C9, as stated, fails: with cutoff 0 and [enlargeFittedList] false the
    four detections of the example are dropped and no FittedStar exists. *)
Lemma cutoff_zero_without_enlarging_creates_nothing :
  size (AssociationModel.fittedStarList
          (AssociationModel.associateCatalogs 0%Qc false false
             AssociationModel.exampleCatalogs))
  = 0%nat
  ∧ length (AssociationModel.detections AssociationModel.exampleCatalogs)
    = 4%nat
  ∧ Forall (λ ms, AssociationModel.fittedStar ms = None)
      (AssociationModel.detections
         (AssociationModel.associateCatalogs 0%Qc false false
            AssociationModel.exampleCatalogs)).
Proof.
  split_and!; [vm_compute; reflexivity | reflexivity |].
  vm_compute. repeat constructor.
Qed.

(** C9, amended.  With cutoff 0 and [enlargeFittedList] true nothing is
    matched: the detections are kept, each refers to a FittedStar created
    from it that was not in the starting list, no two refer to the same
    one, and the list grows by the number of detections; built from
    scratch ([useFittedList] false) it has as many FittedStars as there
    are detections. *)
Theorem cutoff_zero_gives_every_detection_its_own_FittedStar
    (useFittedList : bool) (a : AssociationModel.t) :
  let start :=
    if useFittedList
    then AssociationModel.clearBeforeAssoc <$> AssociationModel.fittedStarList a
    else ∅ in
  let a' := AssociationModel.associateCatalogs 0%Qc useFittedList true a in
  AssociationModel.setFittedStar None <$> AssociationModel.detections a'
  = AssociationModel.setFittedStar None <$> AssociationModel.detections a
  ∧ Forall (λ ms, ∃ h, AssociationModel.fittedStar ms = Some h
                       ∧ start !! h = None
                       ∧ AssociationModel.fittedStarList a' !! h
                         = Some (AssociationModel.fromMeasured ms))
           (AssociationModel.detections a')
  ∧ NoDup (AssociationModel.fittedStar <$> AssociationModel.detections a')
  ∧ size (AssociationModel.fittedStarList a')
    = (size start + length (AssociationModel.detections a))%nat
  ∧ size (AssociationModel.fittedStarList
            (AssociationModel.associateCatalogs 0%Qc false true a))
    = length (AssociationModel.detections a).
Proof.
  intros start a'.
  pose proof (associateImages_zero_own start
                (AssociationModel.ccdImageList a)) as (_ & Hsame & Hown & Hnd).
  unfold AssociationModel.detections. subst a'.
  rewrite associateCatalogs_images, !associateCatalogs_fitted,
    !associateImages_size_zero.
  fold start. split_and!; try done.
Qed.

(** ** Association keeps the measurement counts *)

Section AssociationConsistency.
Import DoubleAssociations.
Local Open Scope Z_scope.










End AssociationConsistency.

(** ** Selection and normalization of FittedStars *)

Section Normalization.
Import DoubleAssociations.
Local Open Scope float_scope.





End Normalization.




(** * Further properties of the code in the headers *)

(** ** [getMappingIndices] on any vector *)

Section MappingIndices.
Context {T : Type} `{PhotometryTransfo T}.

Lemma fill_indices_tail (f : nat → Z) (j i : nat) (v : list Z) :
  (i + j ≤ length v)%nat →
  foldl (λ v k, <[k := f k]> v) v (seq i j)
  = take i v ++ (f <$> seq i j) ++ drop (i + j) v.
Proof.
  revert i v. induction j as [|j IH]; intros i v Hlen.
  - cbn. rewrite Nat.add_0_r. by rewrite take_drop.
  - cbn [seq foldl fmap list_fmap].
    rewrite IH by (rewrite length_insert; lia).
    rewrite (take_S_r _ _ (f i)) by (apply list_lookup_insert_eq; lia).
    rewrite take_insert_ge by lia.
    rewrite drop_insert_lt by lia.
    replace (S i + j)%nat with (i + S j)%nat by lia.
    by rewrite <- app_assoc.
Qed.

Lemma getMappingIndices_closed (σ : gmap loc T) m (indices : list Z) :
  PhotometryMapping.getMappingIndices σ m indices
  = ((λ k : nat, to_unsigned (PhotometryMapping.index m + Z.of_nat k))
       <$> seq 0 (Z.to_nat (PhotometryMapping.getNpar σ m)))
    ++ drop (Z.to_nat (PhotometryMapping.getNpar σ m)) indices.
Proof.
  unfold PhotometryMapping.getMappingIndices.
  set (n := Z.to_nat (PhotometryMapping.getNpar σ m)).
  destruct (Nat.ltb_spec (length indices) n) as [Hlt|Hge].
  - rewrite fill_indices_tail by (rewrite length_resize; lia).
    cbn [take app]. rewrite Nat.add_0_l.
    rewrite !drop_ge; [done | lia | rewrite length_resize; lia].
  - rewrite fill_indices_tail by lia. done.
Qed.

End MappingIndices.

(** X1. Whatever vector it is given, [getMappingIndices] writes
    [index + k] (on 32 bits) into the first [getNpar()] slots, growing
    the vector only when it is shorter than that, and leaves every later
    slot as it was; the slots it writes do not depend on the vector. *)
Theorem getMappingIndices_keeps_the_tail {T : Type} `{PhotometryTransfo T}
    (σ : gmap loc T) (m : PhotometryMapping.t) (indices : list Z) :
  let n := Z.to_nat (PhotometryMapping.getNpar σ m) in
  let r := PhotometryMapping.getMappingIndices σ m indices in
  length r = (length indices `max` n)%nat
  ∧ (∀ k, (k < n)%nat →
          r !! k = Some (to_unsigned (PhotometryMapping.index m + Z.of_nat k)))
  ∧ (∀ k, (n ≤ k)%nat → r !! k = indices !! k)
  ∧ take n r = PhotometryMapping.getMappingIndices σ m [].
Proof.
  intros n r. subst r. rewrite !getMappingIndices_closed. fold n.
  set (f := λ k : nat, to_unsigned (PhotometryMapping.index m + Z.of_nat k)).
  assert (Hlen : length (f <$> seq 0 n) = n)
    by (by rewrite length_fmap, length_seq).
  split_and!.
  - rewrite length_app, Hlen, length_drop. lia.
  - intros k Hk. rewrite lookup_app_l by lia.
    rewrite list_lookup_fmap.
    by rewrite (proj2 (lookup_seq 0 n k k) (conj eq_refl Hk)).
  - intros k Hk. rewrite lookup_app_r by lia.
    rewrite Hlen, lookup_drop. f_equal. lia.
  - rewrite drop_nil, app_nil_r.
    rewrite take_app_length'; done.
Qed.

(** X2. The indices of one mapping are 32-bit values and pairwise
    distinct, whatever its start index: a mapping has fewer than 2^32
    parameters, so the wrap-around of [index + k] cannot make two of
    them meet. *)
Theorem getMappingIndices_of_a_mapping_are_distinct
    {T : Type} `{PhotometryTransfo T}
    (σ : gmap loc T) (m : PhotometryMapping.t) :
  NoDup (PhotometryMapping.getMappingIndices σ m [])
  ∧ Forall (λ i, 0 ≤ i < 2 ^ 32) (PhotometryMapping.getMappingIndices σ m [])
  ∧ Z.of_nat (length (PhotometryMapping.getMappingIndices σ m []))
    = PhotometryMapping.getNpar σ m.
Proof.
  rewrite getMappingIndices_nil.
  assert (Hn : 0 ≤ PhotometryMapping.getNpar σ m < 2 ^ 32).
  { unfold PhotometryMapping.getNpar.
    destruct (PhotometryMapping.fixed m); [lia | apply transfo_getNpar_range]. }
  split_and!.
  - apply NoDup_fmap_2_strong; [|apply NoDup_seq].
    intros k1 k2 Hk1 Hk2 Heq.
    apply elem_of_seq in Hk1, Hk2.
    apply to_unsigned_inj_near in Heq; lia.
  - apply Forall_fmap, Forall_forall. intros k _. apply to_unsigned_range.
  - rewrite length_fmap, length_seq. lia.
Qed.

(** X3. A mapping that was never given an index keeps the constructor's
    [index(-1)], that is 4294967295: its indices are that value followed
    by 0, 1, ... up to [getNpar() - 2]. *)
Theorem getMappingIndices_of_unindexed_mapping
    {T : Type} `{PhotometryTransfo T} (σ : gmap loc T) (transfo : loc) :
  PhotometryMapping.getIndex (PhotometryMapping.new transfo) = 4294967295
  ∧ PhotometryMapping.getMappingIndices σ (PhotometryMapping.new transfo) []
    = if decide (PhotometryMapping.getNpar σ (PhotometryMapping.new transfo)
                 = 0)
      then []
      else 4294967295
           :: seqZ 0 (PhotometryMapping.getNpar σ
                        (PhotometryMapping.new transfo) - 1).
Proof.
  split; [reflexivity|].
  rewrite getMappingIndices_nil.
  pose proof (getNpar_nonneg σ (PhotometryMapping.new transfo)) as Hn.
  assert (Hhi : PhotometryMapping.getNpar σ (PhotometryMapping.new transfo)
                < 2 ^ 32) by apply transfo_getNpar_range.
  set (npar := PhotometryMapping.getNpar σ (PhotometryMapping.new transfo))
    in *.
  destruct (decide (npar = 0)) as [->|Hne]; [done|].
  replace (Z.to_nat npar) with (S (Z.to_nat (npar - 1))) by lia.
  cbn [seq fmap list_fmap]. f_equal.
  rewrite <- fmap_S_seq, <- list_fmap_compose. unfold seqZ.
  apply list_fmap_ext. intros i k Hk.
  apply lookup_seq in Hk as [-> Hlt]. cbn.
  change (PhotometryMapping.index (PhotometryMapping.new transfo))
    with (to_unsigned (-1)).
  unfold to_unsigned. change (-1 mod 2 ^ 32) with 4294967295.
  rewrite Z.add_0_r. symmetry. apply (Z.mod_unique_pos _ _ 1); lia.
Qed.

(** ** Mappings and the transfo objects they point to *)

Section StoreFrames.
Context {T : Type} `{PhotometryTransfo T}.

Lemma offsetAll_other_total (deltas : list VectorXd) m (σ : gmap loc T) q :
  q ≠ PhotometryMapping._transfo m → offsetAll deltas m σ !!! q = σ !!! q.
Proof. intros Hq. by rewrite !lookup_total_alt, offsetAll_other. Qed.

Lemma offsetAll_value_total (deltas : list VectorXd) m (σ : gmap loc T) t0 :
  σ !! PhotometryMapping._transfo m = Some t0 →
  offsetAll deltas m σ !!! PhotometryMapping._transfo m
  = offsetTransfo deltas t0.
Proof.
  intros Hp. apply lookup_total_Some. by apply offsetAll_value.
Qed.

Lemma offsetAll_dom (deltas : list VectorXd) m (σ : gmap loc T) :
  dom (offsetAll deltas m σ) = dom σ.
Proof.
  revert σ. induction deltas as [|d ds IH]; intros σ; [done|].
  change (dom (offsetAll ds m (PhotometryMapping.offsetParams d m σ)) = dom σ).
  rewrite IH. unfold PhotometryMapping.offsetParams. apply dom_alter_L.
Qed.

Lemma freeze_store (σ : gmap loc T) m :
  (PhotometryMapping.freezeErrorTransform σ m).1
  = <[fresh (dom σ) := transfo_clone (σ !!! PhotometryMapping._transfo m)]> σ.
Proof. reflexivity. Qed.

Lemma freeze_other_total (σ : gmap loc T) m q t0 :
  σ !! q = Some t0 →
  (PhotometryMapping.freezeErrorTransform σ m).1 !!! q = σ !!! q.
Proof.
  intros Hq. rewrite freeze_store, lookup_total_insert_ne; [done|].
  by eapply fresh_not_allocated.
Qed.

End StoreFrames.

(** X4. Offsetting one mapping changes nothing that another mapping
    shows, as long as the other mapping points to different transfo
    objects: its values, errors, parameter count, parameters,
    derivatives and indices stay as they were, and no object is created
    or released. *)
Theorem offsetParams_leaves_other_transfos {T : Type} `{PhotometryTransfo T}
    (σ : gmap loc T) (m1 m2 : PhotometryMapping.t) (deltas : list VectorXd)
    (ms : MeasuredStar) (v e : double) (derivatives : VectorXd) :
  PhotometryMapping.getTransfo m2 ≠ PhotometryMapping.getTransfo m1 →
  PhotometryMapping.getTransfoErrors m2 ≠ PhotometryMapping.getTransfo m1 →
  let σ' := offsetAll deltas m1 σ in
  PhotometryMapping.transform σ' m2 ms v = PhotometryMapping.transform σ m2 ms v
  ∧ PhotometryMapping.transformError σ' m2 ms v e
    = PhotometryMapping.transformError σ m2 ms v e
  ∧ PhotometryMapping.getNpar σ' m2 = PhotometryMapping.getNpar σ m2
  ∧ PhotometryMapping.getParameters σ' m2
    = PhotometryMapping.getParameters σ m2
  ∧ PhotometryMapping.computeParameterDerivatives σ' m2 ms v derivatives
    = PhotometryMapping.computeParameterDerivatives σ m2 ms v derivatives
  ∧ PhotometryMapping.getMappingIndices σ' m2 []
    = PhotometryMapping.getMappingIndices σ m2 []
  ∧ dom σ' = dom σ.
Proof.
  intros Hv He σ'.
  unfold PhotometryMapping.getTransfo, PhotometryMapping.getTransfoErrors in *.
  assert (Hval : σ' !!! PhotometryMapping._transfo m2
                 = σ !!! PhotometryMapping._transfo m2)
    by (by apply offsetAll_other_total).
  assert (Herr : σ' !!! PhotometryMapping._transfoErrors m2
                 = σ !!! PhotometryMapping._transfoErrors m2)
    by (by apply offsetAll_other_total).
  assert (Hn : PhotometryMapping.getNpar σ' m2
               = PhotometryMapping.getNpar σ m2)
    by (unfold PhotometryMapping.getNpar; by rewrite Hval).
  unfold PhotometryMapping.transform, PhotometryMapping.transformError,
    PhotometryMapping.getParameters,
    PhotometryMapping.computeParameterDerivatives,
    PhotometryMapping.getMappingIndices.
  rewrite Hval, Herr, Hn. split_and!; try done.
  apply offsetAll_dom.
Qed.

(** The two example mappings point to the two example objects. *)
Lemma offsetParams_leaves_other_transfos_witness :
  PhotometryMapping.getTransfo (PhotometryMapping.new 1%nat)
    ≠ PhotometryMapping.getTransfo (PhotometryMapping.new 0%nat)
  ∧ PhotometryMapping.getTransfoErrors (PhotometryMapping.new 1%nat)
    ≠ PhotometryMapping.getTransfo (PhotometryMapping.new 0%nat)
  ∧ PhotometryMapping.transform
      (offsetAll [[1%float]] (PhotometryMapping.new 0%nat) ScaleTransfo.store)
      (PhotometryMapping.new 1%nat) ScaleTransfo.star 1%float
    = 3%float.
Proof.
  assert (Hv : PhotometryMapping.getTransfo (PhotometryMapping.new 1%nat)
               ≠ PhotometryMapping.getTransfo (PhotometryMapping.new 0%nat))
    by (cbn; lia).
  assert (He : PhotometryMapping.getTransfoErrors (PhotometryMapping.new 1%nat)
               ≠ PhotometryMapping.getTransfo (PhotometryMapping.new 0%nat))
    by (cbn; lia).
  split; [exact Hv|]. split; [exact He|].
  destruct (offsetParams_leaves_other_transfos ScaleTransfo.store
              (PhotometryMapping.new 0%nat) (PhotometryMapping.new 1%nat)
              [[1%float]] ScaleTransfo.star 1%float 1%float [] Hv He)
    as (Ht & _).
  rewrite Ht. vm_compute. reflexivity.
Defined.

(** X5. [offsetParams] is not guarded by the fixed flag and acts on the
    transfo object: after offsets through a mapping, fixed or not, every
    mapping holding the same object transforms with the offset transfo
    and reports its parameters, while a fixed mapping goes on reporting
    no parameter. *)
Theorem offsetParams_reaches_every_holder {T : Type} `{PhotometryTransfo T}
    (σ : gmap loc T) (m1 m2 : PhotometryMapping.t) (t0 : T) (b : bool)
    (deltas : list VectorXd) (ms : MeasuredStar) (v : double) :
  σ !! PhotometryMapping.getTransfo m1 = Some t0 →
  PhotometryMapping.getTransfo m2 = PhotometryMapping.getTransfo m1 →
  let σ' := offsetAll deltas (PhotometryMapping.setFixed b m1) σ in
  PhotometryMapping.transform σ' m2 ms v
  = transfo_transform (offsetTransfo deltas t0) (ms_x ms) (ms_y ms) v
  ∧ PhotometryMapping.getParameters σ' m2
    = transfo_getParameters (offsetTransfo deltas t0)
  ∧ PhotometryMapping.getNpar σ' (PhotometryMapping.setFixed false m2)
    = transfo_getNpar (offsetTransfo deltas t0)
  ∧ PhotometryMapping.getNpar σ' (PhotometryMapping.setFixed true m2) = 0.
Proof.
  intros Hp Hsame σ'. unfold PhotometryMapping.getTransfo in *.
  assert (Hval : σ' !!! PhotometryMapping._transfo m2
                 = offsetTransfo deltas t0).
  { rewrite Hsame.
    apply (offsetAll_value_total deltas (PhotometryMapping.setFixed b m1)).
    exact Hp. }
  unfold PhotometryMapping.transform, PhotometryMapping.getParameters,
    PhotometryMapping.getNpar.
  cbn [PhotometryMapping.fixed PhotometryMapping.setFixed
       PhotometryMapping._transfo].
  rewrite Hval. done.
Qed.

(** A fixed mapping on the first example object, offset by 1/2. *)
Lemma offsetParams_reaches_every_holder_witness :
  ScaleTransfo.store !! PhotometryMapping.getTransfo (PhotometryMapping.new 0%nat)
  = Some 2%float
  ∧ PhotometryMapping.getParameters
      (offsetAll [[0.5%float]]
         (PhotometryMapping.setFixed true (PhotometryMapping.new 0%nat))
         ScaleTransfo.store)
      (PhotometryMapping.new 0%nat)
    = [1.5%float].
Proof.
  split; [reflexivity|].
  destruct (offsetParams_reaches_every_holder ScaleTransfo.store
              (PhotometryMapping.new 0%nat) (PhotometryMapping.new 0%nat)
              2%float true [[0.5%float]] ScaleTransfo.star 1%float
              eq_refl eq_refl)
    as (_ & Hp & _).
  rewrite Hp. vm_compute. reflexivity.
Defined.

(** X6. [freezeErrorTransform] creates exactly one object and touches no
    other: every object of the store is as it was, and the mapping keeps
    its index, its flag and its value transfo, so its values, parameter
    count, parameters, derivatives and indices do not change. *)
Theorem freezeErrorTransform_keeps_the_value_side
    {T : Type} `{PhotometryTransfo T}
    (σ : gmap loc T) (m : PhotometryMapping.t) (t0 : T)
    (ms : MeasuredStar) (v : double) (derivatives : VectorXd) :
  σ !! PhotometryMapping.getTransfo m = Some t0 →
  let σ' := (PhotometryMapping.freezeErrorTransform σ m).1 in
  let m' := (PhotometryMapping.freezeErrorTransform σ m).2 in
  σ ⊆ σ'
  ∧ size σ' = S (size σ)
  ∧ PhotometryMapping.getIndex m' = PhotometryMapping.getIndex m
  ∧ PhotometryMapping.isFixed m' = PhotometryMapping.isFixed m
  ∧ PhotometryMapping.getTransfo m' = PhotometryMapping.getTransfo m
  ∧ PhotometryMapping.transform σ' m' ms v
    = PhotometryMapping.transform σ m ms v
  ∧ PhotometryMapping.getNpar σ' m' = PhotometryMapping.getNpar σ m
  ∧ PhotometryMapping.getParameters σ' m'
    = PhotometryMapping.getParameters σ m
  ∧ PhotometryMapping.computeParameterDerivatives σ' m' ms v derivatives
    = PhotometryMapping.computeParameterDerivatives σ m ms v derivatives
  ∧ PhotometryMapping.getMappingIndices σ' m' []
    = PhotometryMapping.getMappingIndices σ m [].
Proof.
  intros Hp σ' m'. unfold PhotometryMapping.getTransfo in *.
  assert (Hfresh : σ !! fresh (dom σ) = None)
    by apply not_elem_of_dom, is_fresh.
  assert (Hval : σ' !!! PhotometryMapping._transfo m'
                 = σ !!! PhotometryMapping._transfo m)
    by (by eapply freeze_other_total).
  assert (Hn : PhotometryMapping.getNpar σ' m' = PhotometryMapping.getNpar σ m)
    by (unfold PhotometryMapping.getNpar;
        change (PhotometryMapping.fixed m') with (PhotometryMapping.fixed m);
        by rewrite Hval).
  split_and!; try reflexivity.
  - subst σ'. rewrite freeze_store. by apply insert_subseteq.
  - subst σ'. rewrite freeze_store. by apply map_size_insert_None.
  - unfold PhotometryMapping.transform. by rewrite Hval.
  - done.
  - unfold PhotometryMapping.getParameters. by rewrite Hval.
  - unfold PhotometryMapping.computeParameterDerivatives.
    change (PhotometryMapping.fixed m') with (PhotometryMapping.fixed m).
    by rewrite Hval.
  - unfold PhotometryMapping.getMappingIndices. rewrite Hn.
    by change (PhotometryMapping.index m') with (PhotometryMapping.index m).
Qed.

(** Freezing the mapping on the first example object leaves three
    objects in the store. *)
Lemma freezeErrorTransform_keeps_the_value_side_witness :
  ScaleTransfo.store !! PhotometryMapping.getTransfo (PhotometryMapping.new 0%nat)
  = Some 2%float
  ∧ size (PhotometryMapping.freezeErrorTransform ScaleTransfo.store
            (PhotometryMapping.new 0%nat)).1
    = 3%nat.
Proof.
  split; [reflexivity|].
  destruct (freezeErrorTransform_keeps_the_value_side ScaleTransfo.store
              (PhotometryMapping.new 0%nat) 2%float ScaleTransfo.star
              1%float [] eq_refl)
    as (_ & Hsize & _).
  rewrite Hsize. vm_compute. reflexivity.
Defined.

(** X7. [freezeErrorTransform] snapshots whatever the value transfo is at
    the moment of the call, also on a mapping that was frozen before: the
    error transfo becomes a new object holding the clone of the current
    value transfo, the snapshot taken by an earlier freeze is no longer
    used, and offsets applied after the last freeze do not show in
    [transformError]. *)
Theorem freezeErrorTransform_snapshots_again {T : Type} `{PhotometryTransfo T}
    (σ : gmap loc T) (m : PhotometryMapping.t) (t0 : T)
    (between after : list VectorXd) (ms : MeasuredStar) (v e : double) :
  σ !! PhotometryMapping.getTransfo m = Some t0 →
  let σ1 := (PhotometryMapping.freezeErrorTransform σ m).1 in
  let m1 := (PhotometryMapping.freezeErrorTransform σ m).2 in
  let σ2 := offsetAll between m1 σ1 in
  let σ3 := (PhotometryMapping.freezeErrorTransform σ2 m1).1 in
  let m3 := (PhotometryMapping.freezeErrorTransform σ2 m1).2 in
  let σ4 := offsetAll after m3 σ3 in
  σ !! PhotometryMapping.getTransfoErrors m1 = None
  ∧ PhotometryMapping.transformError σ2 m1 ms v e
    = transfo_transformError (transfo_clone t0) (ms_x ms) (ms_y ms) v e
  ∧ PhotometryMapping.getTransfoErrors m3 ≠ PhotometryMapping.getTransfoErrors m1
  ∧ PhotometryMapping.getTransfoErrors m3 ≠ PhotometryMapping.getTransfo m3
  ∧ σ2 !! PhotometryMapping.getTransfoErrors m3 = None
  ∧ PhotometryMapping.transformError σ4 m3 ms v e
    = transfo_transformError (transfo_clone (offsetTransfo between t0))
        (ms_x ms) (ms_y ms) v e
  ∧ PhotometryMapping.transform σ4 m3 ms v
    = transfo_transform (offsetTransfo after (offsetTransfo between t0))
        (ms_x ms) (ms_y ms) v.
Proof.
  intros Hp σ1 m1 σ2 σ3 m3 σ4.
  unfold PhotometryMapping.getTransfo in Hp.
  set (p := PhotometryMapping._transfo m) in *.
  set (q1 := fresh (dom σ)).
  set (q3 := fresh (dom σ2)).
  assert (Hq1 : σ !! q1 = None) by apply not_elem_of_dom, is_fresh.
  assert (Hq1p : q1 ≠ p) by (by eapply fresh_not_allocated).
  assert (H1p : σ1 !! p = Some t0)
    by (subst σ1; rewrite freeze_store, lookup_insert_ne; done).
  assert (H1q : σ1 !! q1 = Some (transfo_clone t0)).
  { subst σ1. rewrite freeze_store. fold p q1.
    by rewrite lookup_insert_eq, (lookup_total_Some _ _ _ Hp). }
  assert (H2p : σ2 !! p = Some (offsetTransfo between t0))
    by (apply (offsetAll_value between m1); done).
  assert (H2q : σ2 !! q1 = Some (transfo_clone t0))
    by (subst σ2; rewrite offsetAll_other; done).
  assert (Hq3p : q3 ≠ p) by (by eapply fresh_not_allocated).
  assert (Hq3q : q3 ≠ q1) by (by eapply fresh_not_allocated).
  assert (H3p : σ3 !! p = Some (offsetTransfo between t0))
    by (subst σ3; rewrite freeze_store; fold q3;
        rewrite lookup_insert_ne; done).
  assert (H3q1 : σ3 !! q1 = Some (transfo_clone t0))
    by (subst σ3; rewrite freeze_store; fold q3;
        rewrite lookup_insert_ne; done).
  assert (H3q3 : σ3 !! q3 = Some (transfo_clone (offsetTransfo between t0))).
  { subst σ3. rewrite freeze_store. fold q3.
    change (PhotometryMapping._transfo m1) with p.
    by rewrite lookup_insert_eq, (lookup_total_Some _ _ _ H2p). }
  assert (H4p : σ4 !! p
                = Some (offsetTransfo after (offsetTransfo between t0)))
    by (apply (offsetAll_value after m3); done).
  assert (H2q3 : σ2 !! q3 = None) by apply not_elem_of_dom, is_fresh.
  assert (H4q3 : σ4 !! q3 = Some (transfo_clone (offsetTransfo between t0)))
    by (subst σ4; rewrite offsetAll_other; done).
  unfold PhotometryMapping.transformError, PhotometryMapping.transform,
    PhotometryMapping.getTransfoErrors, PhotometryMapping.getTransfo.
  change (PhotometryMapping._transfoErrors m1) with q1.
  change (PhotometryMapping._transfoErrors m3) with q3.
  change (PhotometryMapping._transfo m3) with p.
  rewrite (lookup_total_Some _ _ _ H2q), (lookup_total_Some _ _ _ H4q3),
    (lookup_total_Some _ _ _ H4p).
  split_and!; done.
Qed.

(** On the first example object: freeze, offset by 1/2, freeze again,
    offset by 1; the error of 1 is scaled by 2 - 1/2. *)
Lemma freezeErrorTransform_snapshots_again_witness :
  ScaleTransfo.store !! PhotometryMapping.getTransfo (PhotometryMapping.new 0%nat)
  = Some 2%float
  ∧ (let frozen :=
       PhotometryMapping.freezeErrorTransform ScaleTransfo.store
         (PhotometryMapping.new 0%nat) in
     let refrozen :=
       PhotometryMapping.freezeErrorTransform
         (offsetAll [[0.5%float]] frozen.2 frozen.1) frozen.2 in
     PhotometryMapping.transformError
       (offsetAll [[1%float]] refrozen.2 refrozen.1) refrozen.2
       ScaleTransfo.star 1%float 1%float
     = 1.5%float).
Proof.
  split; [reflexivity|].
  destruct (freezeErrorTransform_snapshots_again ScaleTransfo.store
              (PhotometryMapping.new 0%nat) 2%float [[0.5%float]]
              [[1%float]] ScaleTransfo.star 1%float 1%float eq_refl)
    as (_ & _ & _ & _ & _ & Herr & _).
  refine (eq_trans Herr _). vm_compute. reflexivity.
Defined.

(** ** The chip+visit mapping and its two mappings *)

(** X8. The chip+visit mapping reads the value transfos of its two
    mappings at every call: offsets applied through the chip mapping and
    through the visit mapping show in its [transform], in the order chip
    then visit, and freezing the error transform of either mapping does
    not change it. *)
Theorem ChipVisit_transform_follows_its_mappings
    {T : Type} `{PhotometryTransfo T}
    (σ : gmap loc T) (cv : ChipVisitPhotometryMapping.t) (tc tv : T)
    (dc dv : list VectorXd) (ms : MeasuredStar) (v : double) :
  σ !! PhotometryMapping.getTransfo
         (ChipVisitPhotometryMapping.getChipMapping cv) = Some tc →
  σ !! PhotometryMapping.getTransfo
         (ChipVisitPhotometryMapping.getVisitMapping cv) = Some tv →
  PhotometryMapping.getTransfo (ChipVisitPhotometryMapping.getChipMapping cv)
  ≠ PhotometryMapping.getTransfo
      (ChipVisitPhotometryMapping.getVisitMapping cv) →
  let chip := ChipVisitPhotometryMapping.getChipMapping cv in
  let visit := ChipVisitPhotometryMapping.getVisitMapping cv in
  let σ' := offsetAll dv visit (offsetAll dc chip σ) in
  ChipVisitPhotometryMapping.transform σ' cv ms v
  = transfo_transform (offsetTransfo dv tv) (ms_xFocal ms) (ms_yFocal ms)
      (transfo_transform (offsetTransfo dc tc) (ms_x ms) (ms_y ms) v)
  ∧ ChipVisitPhotometryMapping.transform
      (PhotometryMapping.freezeErrorTransform σ' chip).1 cv ms v
    = ChipVisitPhotometryMapping.transform σ' cv ms v
  ∧ ChipVisitPhotometryMapping.transform
      (PhotometryMapping.freezeErrorTransform σ' visit).1 cv ms v
    = ChipVisitPhotometryMapping.transform σ' cv ms v.
Proof.
  intros Hc Hv Hne chip visit σ'.
  unfold PhotometryMapping.getTransfo,
    ChipVisitPhotometryMapping.getChipMapping,
    ChipVisitPhotometryMapping.getVisitMapping in *.
  fold chip visit in Hc, Hv, Hne.
  assert (H1c : offsetAll dc chip σ !! PhotometryMapping._transfo chip
                = Some (offsetTransfo dc tc))
    by (by apply offsetAll_value).
  assert (H1v : offsetAll dc chip σ !! PhotometryMapping._transfo visit
                = Some tv)
    by (rewrite offsetAll_other; [done | congruence]).
  assert (H2c : σ' !! PhotometryMapping._transfo chip
                = Some (offsetTransfo dc tc))
    by (subst σ'; rewrite offsetAll_other; done).
  assert (H2v : σ' !! PhotometryMapping._transfo visit
                = Some (offsetTransfo dv tv))
    by (by apply offsetAll_value).
  unfold ChipVisitPhotometryMapping.transform, PhotometryMapping.getTransfo.
  fold chip visit.
  rewrite !(freeze_other_total σ' _ _ _ H2c),
    !(freeze_other_total σ' _ _ _ H2v).
  rewrite (lookup_total_Some _ _ _ H2c), (lookup_total_Some _ _ _ H2v).
  done.
Qed.

(** The example chip+visit mapping: the chip scale 2 offset by 1/2, the
    visit scale 3 offset by 1, applied to 1. *)
Lemma ChipVisit_transform_follows_its_mappings_witness :
  ScaleTransfo.store
    !! PhotometryMapping.getTransfo
         (ChipVisitPhotometryMapping.getChipMapping SharedExample.chipVisit)
  = Some 2%float
  ∧ ScaleTransfo.store
      !! PhotometryMapping.getTransfo
           (ChipVisitPhotometryMapping.getVisitMapping SharedExample.chipVisit)
    = Some 3%float
  ∧ PhotometryMapping.getTransfo
      (ChipVisitPhotometryMapping.getChipMapping SharedExample.chipVisit)
    ≠ PhotometryMapping.getTransfo
        (ChipVisitPhotometryMapping.getVisitMapping SharedExample.chipVisit)
  ∧ ChipVisitPhotometryMapping.transform
      (offsetAll [[1%float]]
         (ChipVisitPhotometryMapping.getVisitMapping SharedExample.chipVisit)
         (offsetAll [[0.5%float]]
            (ChipVisitPhotometryMapping.getChipMapping SharedExample.chipVisit)
            ScaleTransfo.store))
      SharedExample.chipVisit ScaleTransfo.star 1%float
    = 3%float.
Proof.
  assert (Hne : PhotometryMapping.getTransfo
                  (ChipVisitPhotometryMapping.getChipMapping
                     SharedExample.chipVisit)
                ≠ PhotometryMapping.getTransfo
                    (ChipVisitPhotometryMapping.getVisitMapping
                       SharedExample.chipVisit))
    by (cbn; lia).
  split; [reflexivity|]. split; [reflexivity|]. split; [exact Hne|].
  destruct (ChipVisit_transform_follows_its_mappings ScaleTransfo.store
              SharedExample.chipVisit 2%float 3%float [[0.5%float]]
              [[1%float]] ScaleTransfo.star 1%float eq_refl eq_refl Hne)
    as (Ht & _).
  rewrite Ht. vm_compute. reflexivity.
Defined.

Section SharedFreeze.
Context {T : Type} `{PhotometryTransfo T}.

Lemma fresh_unallocated (σ : gmap loc T) : σ !! fresh (dom σ) = None.
Proof. apply not_elem_of_dom, is_fresh. Qed.

Lemma mapping_total_Some (μ : gmap loc PhotometryMapping.t) q m :
  μ !! q = Some m → μ !!! q = m.
Proof. apply lookup_total_correct. Qed.

End SharedFreeze.

(** X9. Freezing a chip+visit mapping freezes the two mapping objects it
    points to, in place: each gets a new error transfo, the two being
    different new objects that hold the clones of the chip and of the
    visit value transfo; every other mapping object and every transfo
    object is as it was, any chip+visit mapping sharing the chip mapping
    sees it frozen, and [transform] is unchanged. *)
Theorem ChipVisit_freeze_freezes_the_shared_mappings
    {T : Type} `{PhotometryTransfo T}
    (μ : gmap loc PhotometryMapping.t) (σ : gmap loc T)
    (cv : SharedChipVisit.t) (chip visit : PhotometryMapping.t) (tc tv : T) :
  SharedChipVisit._chipMapping cv ≠ SharedChipVisit._visitMapping cv →
  μ !! SharedChipVisit._chipMapping cv = Some chip →
  μ !! SharedChipVisit._visitMapping cv = Some visit →
  σ !! PhotometryMapping.getTransfo chip = Some tc →
  σ !! PhotometryMapping.getTransfo visit = Some tv →
  let μ' := (SharedChipVisit.freezeErrorTransform μ σ cv).1 in
  let σ' := (SharedChipVisit.freezeErrorTransform μ σ cv).2 in
  let chip' := μ' !!! SharedChipVisit._chipMapping cv in
  let visit' := μ' !!! SharedChipVisit._visitMapping cv in
  PhotometryMapping.getTransfo chip' = PhotometryMapping.getTransfo chip
  ∧ PhotometryMapping.getTransfo visit' = PhotometryMapping.getTransfo visit
  ∧ σ !! PhotometryMapping.getTransfoErrors chip' = None
  ∧ σ !! PhotometryMapping.getTransfoErrors visit' = None
  ∧ PhotometryMapping.getTransfoErrors chip'
    ≠ PhotometryMapping.getTransfoErrors visit'
  ∧ σ' !! PhotometryMapping.getTransfoErrors chip' = Some (transfo_clone tc)
  ∧ σ' !! PhotometryMapping.getTransfoErrors visit' = Some (transfo_clone tv)
  ∧ σ ⊆ σ'
  ∧ size σ' = S (S (size σ))
  ∧ (∀ q, q ≠ SharedChipVisit._chipMapping cv →
          q ≠ SharedChipVisit._visitMapping cv → μ' !! q = μ !! q)
  ∧ (∀ other, SharedChipVisit._chipMapping other
              = SharedChipVisit._chipMapping cv →
              ChipVisitPhotometryMapping.getChipMapping
                (SharedChipVisit.load μ' other) = chip')
  ∧ (∀ ms v, SharedChipVisit.transform μ' σ' cv ms v
             = SharedChipVisit.transform μ σ cv ms v).
Proof.
  intros Hcw Hc Hw Htc Htv μ' σ' chip' visit'.
  unfold PhotometryMapping.getTransfo in Htc, Htv.
  set (c := SharedChipVisit._chipMapping cv) in *.
  set (w := SharedChipVisit._visitMapping cv) in *.
  set (e1 := fresh (dom σ)).
  set (σ1 := <[e1 := transfo_clone tc]> σ).
  set (e2 := fresh (dom σ1)).
  set (chip1 := PhotometryMapping.mk (PhotometryMapping.index chip)
                  (PhotometryMapping.fixed chip)
                  (PhotometryMapping._transfo chip) e1).
  set (visit1 := PhotometryMapping.mk (PhotometryMapping.index visit)
                   (PhotometryMapping.fixed visit)
                   (PhotometryMapping._transfo visit) e2).
  assert (He1 : σ !! e1 = None) by apply fresh_unallocated.
  assert (H1e1 : σ1 !! e1 = Some (transfo_clone tc))
    by apply lookup_insert_eq.
  assert (He2 : σ1 !! e2 = None) by apply fresh_unallocated.
  assert (He12 : e1 ≠ e2) by congruence.
  assert (He2σ : σ !! e2 = None).
  { subst σ1. rewrite lookup_insert_ne in He2; done. }
  assert (H1v : σ1 !! PhotometryMapping._transfo visit = Some tv).
  { subst σ1. rewrite lookup_insert_ne; [done | congruence]. }
  assert (Hfc : PhotometryMapping.freezeErrorTransform σ (μ !!! c)
                = (σ1, chip1)).
  { rewrite (mapping_total_Some _ _ _ Hc).
    unfold PhotometryMapping.freezeErrorTransform.
    by rewrite (lookup_total_Some _ _ _ Htc). }
  assert (Hfv : PhotometryMapping.freezeErrorTransform σ1
                  (<[c := chip1]> μ !!! w)
                = (<[e2 := transfo_clone tv]> σ1, visit1)).
  { rewrite lookup_total_insert_ne by done.
    rewrite (mapping_total_Some _ _ _ Hw).
    unfold PhotometryMapping.freezeErrorTransform.
    by rewrite (lookup_total_Some _ _ _ H1v). }
  assert (Hμ' : μ' = <[w := visit1]> (<[c := chip1]> μ)).
  { subst μ'. unfold SharedChipVisit.freezeErrorTransform. fold c w.
    rewrite Hfc. cbn [fst snd]. by rewrite Hfv. }
  assert (Hσ' : σ' = <[e2 := transfo_clone tv]> σ1).
  { subst σ'. unfold SharedChipVisit.freezeErrorTransform. fold c w.
    rewrite Hfc. cbn [fst snd]. by rewrite Hfv. }
  assert (Hchip' : chip' = chip1).
  { subst chip'. rewrite Hμ'. apply mapping_total_Some.
    rewrite lookup_insert_ne by done. apply lookup_insert_eq. }
  assert (Hvisit' : visit' = visit1).
  { subst visit'. rewrite Hμ'. apply mapping_total_Some.
    apply lookup_insert_eq. }
  assert (Hsub : σ ⊆ σ').
  { rewrite Hσ'. etrans; [|by apply insert_subseteq].
    by apply insert_subseteq. }
  rewrite Hchip', Hvisit'.
  unfold PhotometryMapping.getTransfo, PhotometryMapping.getTransfoErrors.
  cbn [PhotometryMapping._transfo PhotometryMapping._transfoErrors chip1
       visit1].
  split_and!; try done.
  - rewrite Hσ'. by rewrite lookup_insert_ne.
  - rewrite Hσ'. apply lookup_insert_eq.
  - rewrite Hσ'. rewrite map_size_insert_None by done.
    subst σ1. by rewrite map_size_insert_None.
  - intros q Hqc Hqw. rewrite Hμ'. by rewrite !lookup_insert_ne.
  - intros other Hother. unfold SharedChipVisit.load,
      ChipVisitPhotometryMapping.getChipMapping.
    cbn [ChipVisitPhotometryMapping._chipMapping]. rewrite Hother.
    fold c. rewrite Hμ'. apply mapping_total_Some.
    rewrite lookup_insert_ne by done. apply lookup_insert_eq.
  - intros ms v. unfold SharedChipVisit.transform,
      ChipVisitPhotometryMapping.transform, SharedChipVisit.load,
      PhotometryMapping.getTransfo.
    cbn [ChipVisitPhotometryMapping._chipMapping
         ChipVisitPhotometryMapping._visitMapping].
    fold c w. fold chip' visit'. rewrite Hchip', Hvisit'.
    rewrite (mapping_total_Some _ _ _ Hc), (mapping_total_Some _ _ _ Hw).
    cbn [PhotometryMapping._transfo chip1 visit1].
    rewrite (lookup_total_Some σ' _ _ (lookup_weaken _ _ _ _ Htc Hsub)),
      (lookup_total_Some σ' _ _ (lookup_weaken _ _ _ _ Htv Hsub)),
      (lookup_total_Some _ _ _ Htc), (lookup_total_Some _ _ _ Htv).
    done.
Qed.

(** Freezing the first example chip+visit mapping adds two transfo
    objects to the two of the store. *)
Lemma ChipVisit_freeze_freezes_the_shared_mappings_witness :
  SharedChipVisit._chipMapping SharedExample.first
  ≠ SharedChipVisit._visitMapping SharedExample.first
  ∧ SharedExample.mappings !! SharedChipVisit._chipMapping SharedExample.first
    = Some (PhotometryMapping.new 0%nat)
  ∧ SharedExample.mappings !! SharedChipVisit._visitMapping SharedExample.first
    = Some (PhotometryMapping.new 1%nat)
  ∧ ScaleTransfo.store !! PhotometryMapping.getTransfo (PhotometryMapping.new 0%nat)
    = Some 2%float
  ∧ ScaleTransfo.store !! PhotometryMapping.getTransfo (PhotometryMapping.new 1%nat)
    = Some 3%float
  ∧ size (SharedChipVisit.freezeErrorTransform SharedExample.mappings
            ScaleTransfo.store SharedExample.first).2
    = 4%nat.
Proof.
  assert (Hne : SharedChipVisit._chipMapping SharedExample.first
                ≠ SharedChipVisit._visitMapping SharedExample.first)
    by (cbn; lia).
  split; [exact Hne|]. do 4 (split; [reflexivity|]).
  destruct (ChipVisit_freeze_freezes_the_shared_mappings
              SharedExample.mappings ScaleTransfo.store SharedExample.first
              (PhotometryMapping.new 0%nat) (PhotometryMapping.new 1%nat)
              2%float 3%float Hne eq_refl eq_refl eq_refl eq_refl)
    as (_ & _ & _ & _ & _ & _ & _ & _ & Hsize & _).
  refine (eq_trans Hsize _). vm_compute. reflexivity.
Defined.

(** X10. [ChipVisitPhotometryMapping::getParameters] sizes its result
    by [getNpar()] and fills it with all parameters of the chip transfo
    followed by all parameters of the visit transfo, fitted or not.  When
    it returns, the result is that concatenation and has [getNpar()]
    entries; on a newly built mapping, whose counters are 0, it returns
    only if neither transfo has a parameter; it returns when both
    counters equal the sizes of the two parameter vectors, and not when
    only the chip level is counted while the visit transfo has
    parameters. *)
Theorem ChipVisit_getParameters_needs_both_levels
    {T : Type} `{PhotometryTransfo T}
    (μ : gmap loc PhotometryMapping.t) (σ : gmap loc T)
    (cv : SharedChipVisit.t) (c w : loc) (i : Z) (b : bool) :
  let chipPars := λ a : loc, PhotometryMapping.getParameters σ (μ !!! a) in
  (∀ p, SharedChipVisit.getParameters μ σ cv = Some p →
        p = chipPars (SharedChipVisit._chipMapping cv)
            ++ chipPars (SharedChipVisit._visitMapping cv)
        ∧ Z.of_nat (length p) = SharedChipVisit.getNpar cv)
  ∧ (SharedChipVisit.getParameters μ σ (SharedChipVisit.new c w) = None
     ↔ chipPars c ++ chipPars w ≠ [])
  ∧ (Z.of_nat (length (chipPars c ++ chipPars w)) < 2 ^ 32 →
     SharedChipVisit.getParameters μ σ
       (SharedChipVisit.mk i b (Z.of_nat (length (chipPars c)))
          (Z.of_nat (length (chipPars w))) c w)
     = Some (chipPars c ++ chipPars w))
  ∧ (Z.of_nat (length (chipPars c ++ chipPars w)) < 2 ^ 32 →
     chipPars w ≠ [] →
     SharedChipVisit.getParameters μ σ
       (SharedChipVisit.mk i b (Z.of_nat (length (chipPars c))) 0 c w)
     = None).
Proof.
  intros chipPars. unfold SharedChipVisit.getParameters.
  cbn [SharedChipVisit._chipMapping SharedChipVisit._visitMapping
       SharedChipVisit.new].
  fold (chipPars (SharedChipVisit._chipMapping cv))
       (chipPars (SharedChipVisit._visitMapping cv))
       (chipPars c) (chipPars w).
  split_and!.
  - intros p Hp. destruct (decide _) as [Hlen|]; [|done].
    injection Hp as <-. done.
  - change (SharedChipVisit.getNpar (SharedChipVisit.new c w)) with 0.
    destruct (chipPars c ++ chipPars w) as [|x l] eqn:E.
    + rewrite decide_True by done. split; [discriminate | done].
    + rewrite decide_False by (cbn; lia). done.
  - intros Hlt. rewrite decide_True; [done|].
    unfold SharedChipVisit.getNpar.
    cbn [SharedChipVisit._nParChip SharedChipVisit._nParVisit].
    rewrite length_app in Hlt |- *.
    rewrite to_unsigned_small; lia.
  - intros Hlt Hw. rewrite decide_False; [done|].
    unfold SharedChipVisit.getNpar.
    cbn [SharedChipVisit._nParChip SharedChipVisit._nParVisit].
    rewrite length_app in Hlt |- *.
    rewrite to_unsigned_small by lia.
    destruct (chipPars w); [done | cbn; lia].
Qed.

(** ** The lists of [Associations] *)

(** X11. [addCcdImage] appends at the end and touches nothing else: an
    [Associations] built from a list and then extended holds the list
    followed by the added images in the order of the calls, which is also
    what the default constructor followed by the same calls on all of
    them gives; the reference and fitted star lists stay empty and the
    number of filters is 1. *)
Theorem addCcdImage_appends {CcdImage RefStar FittedStar : Type}
    (imageList added : list CcdImage) :
  let extend :=
    foldl (λ (a : Associations.t CcdImage RefStar FittedStar) c,
             Associations.addCcdImage c a) in
  Associations.getCcdImageList (extend (Associations.new_from imageList) added)
  = imageList ++ added
  ∧ extend (Associations.new_from imageList) added
    = extend Associations.new (imageList ++ added)
  ∧ extend Associations.new imageList = Associations.new_from imageList
  ∧ Associations.refStarListSize
      (extend (Associations.new_from imageList) added) = 0%nat
  ∧ Associations.fittedStarListSize
      (extend (Associations.new_from imageList) added) = 0%nat
  ∧ Associations.getNFilters
      (extend (Associations.new_from imageList) added) = 1.
Proof.
  intros extend.
  assert (Hext : ∀ (l : list CcdImage)
                   (a : Associations.t CcdImage RefStar FittedStar),
            extend a l
            = Associations.mk (Associations.ccdImageList a ++ l)
                (Associations.refStarList a) (Associations.fittedStarList a)
                (Associations._commonTangentPoint a)).
  { induction l as [|c l IH]; intros a.
    - cbn. rewrite app_nil_r. by destruct a.
    - subst extend. cbn [foldl]. rewrite IH. cbn. by rewrite <- app_assoc. }
  rewrite !Hext. cbn. split_and!; try done.
Qed.

(** ** The SIP coefficients copied by [ConvertTanWcs] *)

Section SipCopy.
Import SipToGtransfo.
Local Open Scope nat_scope.

Lemma elem_of_concat_iff {A : Type} (x : A) (ls : list (list A)) :
  x ∈ concat ls ↔ ∃ l, l ∈ ls ∧ x ∈ l.
Proof.
  rewrite list_elem_of_In, in_concat. split.
  - intros (l & Hl & Hx). exists l. by rewrite !list_elem_of_In.
  - intros (l & Hl & Hx). exists l. by rewrite <- !list_elem_of_In.
Qed.

(** What one matrix contributes at [(i, j)]: its entry when there is one. *)
Lemma copyEntry_square n m whichCoord i j :
  square n m →
  copyEntry m whichCoord i j
  = Some (match coeff m i j with
          | Some v => [(i, j, whichCoord, v)]
          | None => []
          end).
Proof.
  intros [Hrows Hcols]. unfold copyEntry, rows.
  assert (Hc : cols m = n).
  { destruct m as [|r m]; [done|]. cbn. by inversion Hcols. }
  rewrite Hc, Hrows. unfold coeff.
  destruct (Nat.ltb_spec i n) as [Hi|Hi], (Nat.ltb_spec j n) as [Hj|Hj];
    cbn [andb].
  - destruct (m !! i) as [r|] eqn:Er.
    + cbn. rewrite Forall_forall in Hcols.
      assert (Hr : length r = n)
        by (apply Hcols; by eapply list_elem_of_lookup_2).
      destruct (lookup_lt_is_Some_2 r j ltac:(lia)) as [v Hv].
      by rewrite Hv.
    + apply lookup_ge_None in Er. lia.
  - destruct (m !! i) as [r|] eqn:Er; [|done]. cbn.
    rewrite Forall_forall in Hcols.
    assert (Hr : length r = n)
      by (apply Hcols; by eapply list_elem_of_lookup_2).
    by rewrite (proj2 (lookup_ge_None r j) ltac:(lia)).
  - destruct (m !! i) as [r|] eqn:Er; [|done].
    apply lookup_lt_Some in Er. lia.
  - destruct (m !! i) as [r|] eqn:Er; [|done].
    apply lookup_lt_Some in Er. lia.
Qed.

Lemma runCells_total sipA sipB (g : nat * nat → list Write) cells :
  (∀ ij, ij ∈ cells → copyCell sipA sipB ij = Some (g ij)) →
  runCells sipA sipB cells = Some (concat (map g cells)).
Proof.
  induction cells as [|ij rest IH]; intros Hg; [done|].
  cbn [runCells map concat].
  rewrite (Hg ij) by (by left). cbn.
  rewrite IH by (intros ij' Hin; apply Hg; by right). done.
Qed.

Lemma runCells_undefined sipA sipB cells ij :
  ij ∈ cells → copyCell sipA sipB ij = None →
  runCells sipA sipB cells = None.
Proof.
  induction cells as [|c rest IH]; intros Hin Hnone;
    [by apply not_elem_of_nil in Hin|].
  cbn [runCells]. apply elem_of_cons in Hin as [->|Hin].
  - by rewrite Hnone.
  - destruct (copyCell sipA sipB c); [|done]. cbn.
    by rewrite (IH Hin Hnone).
Qed.

Lemma elem_of_cells (n : nat) i j :
  (i, j) ∈ list_prod (seq 0 n) (seq 0 n) ↔ i < n ∧ j < n.
Proof.
  rewrite list_elem_of_In, in_prod_iff, !in_seq. lia.
Qed.

End SipCopy.

(** X12. For square SIP matrices, of sizes that may differ, the copy
    loop of [ConvertTanWcs] reads no entry outside a matrix and assigns
    exactly the entries of [sipA] (to coordinate 0) and of [sipB] (to
    coordinate 1) whose row and column are at most
    [max(A_ORDER, B_ORDER)], each at [Coeff(row, column, .)]; nothing is
    assigned where a matrix has no entry.  The assignments cover the
    whole square of degrees, not only those of total degree up to the
    order. *)
Theorem copySip_assigns_the_square_of_entries
    (aOrder bOrder : Z) (n k : nat) (sipA sipB : SipToGtransfo.MatrixXd) :
  SipToGtransfo.square n sipA →
  SipToGtransfo.square k sipB →
  ∃ writes,
    SipToGtransfo.copySip aOrder bOrder sipA sipB = Some writes
    ∧ ∀ i j c v,
        (i, j, c, v) ∈ writes
        ↔ Z.of_nat i ≤ Z.max aOrder bOrder
          ∧ Z.of_nat j ≤ Z.max aOrder bOrder
          ∧ ((c = 0%nat ∧ SipToGtransfo.coeff sipA i j = Some v)
             ∨ (c = 1%nat ∧ SipToGtransfo.coeff sipB i j = Some v)).
Proof.
  intros HA HB.
  set (g := λ ij : nat * nat,
         match SipToGtransfo.coeff sipA ij.1 ij.2 with
         | Some v => [(ij.1, ij.2, 0%nat, v)]
         | None => []
         end
         ++ match SipToGtransfo.coeff sipB ij.1 ij.2 with
            | Some v => [(ij.1, ij.2, 1%nat, v)]
            | None => []
            end).
  set (N := Z.to_nat (Z.max aOrder bOrder + 1)).
  exists (concat (map g (list_prod (seq 0 N) (seq 0 N)))). split.
  - unfold SipToGtransfo.copySip. fold N. apply runCells_total.
    intros ij _. unfold SipToGtransfo.copyCell.
    rewrite (copyEntry_square n sipA _ _ _ HA),
      (copyEntry_square k sipB _ _ _ HB). done.
  - intros i j c v. rewrite elem_of_concat_iff. split.
    + intros (l & Hl & Hw).
      apply list_elem_of_In, in_map_iff in Hl as ([i' j'] & <- & Hin).
      apply list_elem_of_In, elem_of_cells in Hin as [Hi Hj].
      unfold g in Hw. cbn [fst snd] in Hw.
      apply elem_of_app in Hw as [Hw|Hw].
      * destruct (SipToGtransfo.coeff sipA i' j') as [va|] eqn:Ea;
          [|by apply not_elem_of_nil in Hw].
        apply list_elem_of_singleton in Hw. injection Hw as -> -> -> ->.
        split_and!; [lia | lia | by left].
      * destruct (SipToGtransfo.coeff sipB i' j') as [vb|] eqn:Eb;
          [|by apply not_elem_of_nil in Hw].
        apply list_elem_of_singleton in Hw. injection Hw as -> -> -> ->.
        split_and!; [lia | lia | by right].
    + intros (Hi & Hj & Hv). exists (g (i, j)). split.
      * apply list_elem_of_In, in_map, list_elem_of_In, elem_of_cells. lia.
      * unfold g. cbn [fst snd]. apply elem_of_app.
        destruct Hv as [[-> Hv]|[-> Hv]]; rewrite Hv;
          [left | right]; by apply list_elem_of_singleton.
Qed.

(** A 2 x 2 matrix for [A] and a 1 x 1 matrix for [B], orders 1 and 0:
    five assignments. *)
Lemma copySip_assigns_the_square_of_entries_witness :
  SipToGtransfo.square 2 SipToGtransfo.exampleA
  ∧ SipToGtransfo.square 1 SipToGtransfo.exampleB
  ∧ ∃ writes,
      SipToGtransfo.copySip 1 0 SipToGtransfo.exampleA SipToGtransfo.exampleB
      = Some writes
      ∧ (1%nat, 1%nat, 0%nat, 4%float) ∈ writes.
Proof.
  assert (HA : SipToGtransfo.square 2 SipToGtransfo.exampleA)
    by (split; [reflexivity | repeat constructor]).
  assert (HB : SipToGtransfo.square 1 SipToGtransfo.exampleB)
    by (split; [reflexivity | repeat constructor]).
  split; [exact HA|]. split; [exact HB|].
  destruct (copySip_assigns_the_square_of_entries 1 0 2 1
              SipToGtransfo.exampleA SipToGtransfo.exampleB HA HB)
    as (writes & Hrun & Hin).
  exists writes. split; [exact Hrun|].
  apply Hin. split_and!; [lia | lia | left; split; reflexivity].
Defined.

(** X13. The bounds test of the copy loop compares the row index with
    the number of columns and the column index with the number of rows:
    on a matrix with more columns than rows, and an order that reaches
    its number of rows, the loop reads an entry below the last row. *)
Theorem copySip_reads_outside_a_wide_matrix
    (aOrder bOrder : Z) (sipA sipB : SipToGtransfo.MatrixXd) :
  (0 < SipToGtransfo.rows sipA)%nat →
  (SipToGtransfo.rows sipA < SipToGtransfo.cols sipA)%nat →
  Z.of_nat (SipToGtransfo.rows sipA) ≤ Z.max aOrder bOrder →
  SipToGtransfo.copyEntry sipA 0 (SipToGtransfo.rows sipA) 0 = None
  ∧ SipToGtransfo.copySip aOrder bOrder sipA sipB = None.
Proof.
  intros Hpos Hwide Horder.
  assert (Hentry : SipToGtransfo.copyEntry sipA 0
                     (SipToGtransfo.rows sipA) 0 = None).
  { unfold SipToGtransfo.copyEntry.
    rewrite (proj2 (Nat.ltb_lt _ _) Hwide), (proj2 (Nat.ltb_lt _ _) Hpos).
    cbn [andb]. unfold SipToGtransfo.coeff, SipToGtransfo.rows.
    destruct (sipA !! length sipA) as [r|] eqn:Er; [|done].
    apply lookup_lt_Some in Er. lia. }
  split; [exact Hentry|].
  unfold SipToGtransfo.copySip.
  apply (runCells_undefined _ _ _ (SipToGtransfo.rows sipA, 0%nat)).
  - apply elem_of_cells. lia.
  - unfold SipToGtransfo.copyCell. cbn [fst snd]. by rewrite Hentry.
Qed.

(** A matrix with 2 rows and 3 columns, order 2. *)
Lemma copySip_reads_outside_a_wide_matrix_witness :
  (0 < SipToGtransfo.rows SipToGtransfo.exampleWide)%nat
  ∧ (SipToGtransfo.rows SipToGtransfo.exampleWide
     < SipToGtransfo.cols SipToGtransfo.exampleWide)%nat
  ∧ Z.of_nat (SipToGtransfo.rows SipToGtransfo.exampleWide) ≤ Z.max 2 2
  ∧ SipToGtransfo.copySip 2 2 SipToGtransfo.exampleWide
      SipToGtransfo.exampleB
    = None.
Proof.
  assert (H1 : (0 < SipToGtransfo.rows SipToGtransfo.exampleWide)%nat)
    by (cbn; lia).
  assert (H2 : (SipToGtransfo.rows SipToGtransfo.exampleWide
                < SipToGtransfo.cols SipToGtransfo.exampleWide)%nat)
    by (cbn; lia).
  assert (H3 : Z.of_nat (SipToGtransfo.rows SipToGtransfo.exampleWide)
               ≤ Z.max 2 2) by (cbn; lia).
  split; [exact H1|]. split; [exact H2|]. split; [exact H3|].
  exact (proj2 (copySip_reads_outside_a_wide_matrix 2 2
                  SipToGtransfo.exampleWide SipToGtransfo.exampleB
                  H1 H2 H3)).
Defined.
